(** * pycdt: the command-line driver of PyCDT, as a trace-producing program

    The script [scripts/pycdt.py] owns no algorithm: it parses its command
    line, and each of its two handlers calls a fixed sequence of library
    functions (the Materials Project client, pymatgen's symmetry analyser,
    the defect enumerator, the VASP file writers, the post-processor).

    The embedding below keeps that shape.  Whatever the script does not
    define itself (builtins, argparse's scanning of the command line, every
    collaborator library) is a field of a [World]; a handler is a
    computation in a small state-and-exception monad whose state is the
    chronological trace of the calls made so far, each recorded with its
    arguments and with what the world answered. *)

From stdpp Require Import base numbers strings list gmap.

Local Open Scope Z_scope.

(** ** Values *)

(** A Python exception.  [SystemExit] is told apart because it carries the
    process exit status; every other exception is a class name and its
    message. *)
Inductive Exn :=
| SystemExit (code : Z)
| Exception (class message : string).

(** The outcome of evaluating an expression or of calling a function. *)
Inductive Result (A : Type) :=
| Return (a : A)
| Raise (e : Exn).
Arguments Return {A} a.
Arguments Raise {A} e.

(** Library objects are opaque to the script, which never looks inside one:
    an object is a reference, classified by what it is an instance of. *)
Inductive PyClass :=
| cMPRester | cStructure | cSpacegroupAnalyzer | cChargedDefectsStructures
| cDefects | cComposition | cPostProcess.

Record Obj (c : PyClass) := Ref { addr : nat }.
Arguments Ref {c} addr.
Arguments addr {c} o.

(** One [--oxi_range] occurrence: [nargs=3] makes it exactly three strings. *)
Definition OxiTriple : Type := string * string * string.

(** The dictionary built at lines 74-77. *)
Abbreviation OxiDict := (gmap string (Z * Z)).

(** The attributes of the [argparse.Namespace] the handlers read.  A handler
    reads only the attributes its own sub-parser declares. *)
Record Namespace := {
  mpid : option string;
  mapi_key : option string;
  nmax : Z;
  oxi_range : option (list OxiTriple);
  root_fldr : option string
}.

Definition set_mpid (ns : Namespace) (v : option string) : Namespace :=
  {| mpid := v; mapi_key := mapi_key ns; nmax := nmax ns;
     oxi_range := oxi_range ns; root_fldr := root_fldr ns |}.

Definition set_mapi_key (ns : Namespace) (v : option string) : Namespace :=
  {| mpid := mpid ns; mapi_key := v; nmax := nmax ns;
     oxi_range := oxi_range ns; root_fldr := root_fldr ns |}.

Definition set_nmax (ns : Namespace) (v : Z) : Namespace :=
  {| mpid := mpid ns; mapi_key := mapi_key ns; nmax := v;
     oxi_range := oxi_range ns; root_fldr := root_fldr ns |}.

Definition set_oxi_range (ns : Namespace) (v : option (list OxiTriple))
    : Namespace :=
  {| mpid := mpid ns; mapi_key := mapi_key ns; nmax := nmax ns;
     oxi_range := v; root_fldr := root_fldr ns |}.

Definition set_root_fldr (ns : Namespace) (v : option string) : Namespace :=
  {| mpid := mpid ns; mapi_key := mapi_key ns; nmax := nmax ns;
     oxi_range := oxi_range ns; root_fldr := v |}.

(** ** Events *)

(** A call that left the script, with its arguments and its outcome.  In
    [E_MPRester] and [E_ChargedDefectsStructures] an argument that is [None]
    is an argument that was not passed at all (the script never passes a
    literal [None] there); in [E_PostProcess] the optional values are the
    Python values themselves.  [E_exit] records the exception, if any, that
    was in flight when the [with] block was left. *)
Inductive Event :=
| E_print (s : string)
| E_MPRester (api_key : option string) (r : Result (Obj cMPRester))
| E_enter (mgr : Obj cMPRester) (r : Result (Obj cMPRester))
| E_get_structure_by_material_id (mp : Obj cMPRester) (material_id : string)
    (r : Result (Obj cStructure))
| E_exit (mgr : Obj cMPRester) (exc : option Exn) (r : Result unit)
| E_SpacegroupAnalyzer (structure : Obj cStructure)
    (r : Result (Obj cSpacegroupAnalyzer))
| E_get_conventional_standard_structure (sga : Obj cSpacegroupAnalyzer)
    (r : Result (Obj cStructure))
| E_make_vasp_dielectric_files (structure : Obj cStructure) (r : Result unit)
| E_ChargedDefectsStructures (structure : Obj cStructure)
    (oxi : option OxiDict) (cellmax : Z)
    (r : Result (Obj cChargedDefectsStructures))
| E_defects (def_structs : Obj cChargedDefectsStructures)
    (r : Result (Obj cDefects))
| E_composition (structure : Obj cStructure) (r : Result (Obj cComposition))
| E_reduced_formula (comp : Obj cComposition) (r : Result string)
| E_make_vasp_defect_files (defects : Obj cDefects) (formula : string)
    (r : Result unit)
| E_PostProcess (root : option string) (material_id : string)
    (key : option string) (r : Result (Obj cPostProcess))
| E_parse_defect_calculations (pp : Obj cPostProcess) (r : Result unit).

Abbreviation Trace := (list Event).

(** The exception an event ended with, if it ended with one. *)
Definition raised_by (ev : Event) : option Exn :=
  let exn {A} (r : Result A) :=
    match r with Raise e => Some e | Return _ => None end in
  match ev with
  | E_print _ => None
  | E_MPRester _ r => exn r
  | E_enter _ r => exn r
  | E_get_structure_by_material_id _ _ r => exn r
  | E_exit _ _ r => exn r
  | E_SpacegroupAnalyzer _ r => exn r
  | E_get_conventional_standard_structure _ r => exn r
  | E_make_vasp_dielectric_files _ r => exn r
  | E_ChargedDefectsStructures _ _ _ r => exn r
  | E_defects _ r => exn r
  | E_composition _ r => exn r
  | E_reduced_formula _ r => exn r
  | E_make_vasp_defect_files _ _ r => exn r
  | E_PostProcess _ _ _ r => exn r
  | E_parse_defect_calculations _ r => exn r
  end.

(** ** The world outside the script *)

(** Everything the script calls and does not define.  [int] is the builtin
    and is pure.  [scan] stands for argparse's reading of [sys.argv[1:]]:
    the sub-command it selects and, in command-line order, every option
    occurrence as the declared option string and the raw argument strings
    matched to it (abbreviations, [--opt=value] and the like are argparse's
    business); it raises when argparse rejects the command line.  Every
    collaborator answers as a function of the calls made so far, so a
    network or a file system that changes between calls is covered.
    pymatgen's [MPRester.__exit__] closes the session and returns [None], so
    it cannot swallow an exception: its answer has type [unit]. *)
Record World := {
  int : string → Result Z;
  scan : list string → Result (string * list (string * list string));
  MPRester : Trace → option string → Result (Obj cMPRester);
  enter : Trace → Obj cMPRester → Result (Obj cMPRester);
  get_structure_by_material_id :
    Trace → Obj cMPRester → string → Result (Obj cStructure);
  exit : Trace → Obj cMPRester → option Exn → Result unit;
  SpacegroupAnalyzer : Trace → Obj cStructure → Result (Obj cSpacegroupAnalyzer);
  get_conventional_standard_structure :
    Trace → Obj cSpacegroupAnalyzer → Result (Obj cStructure);
  make_vasp_dielectric_files : Trace → Obj cStructure → Result unit;
  ChargedDefectsStructures :
    Trace → Obj cStructure → option OxiDict → Z →
    Result (Obj cChargedDefectsStructures);
  defects : Trace → Obj cChargedDefectsStructures → Result (Obj cDefects);
  composition : Trace → Obj cStructure → Result (Obj cComposition);
  reduced_formula : Trace → Obj cComposition → Result string;
  make_vasp_defect_files : Trace → Obj cDefects → string → Result unit;
  PostProcess :
    Trace → option string → string → option string → Result (Obj cPostProcess);
  parse_defect_calculations : Trace → Obj cPostProcess → Result unit
}.

(** ** The monad of the script *)

(** A computation reads the trace so far and gives the extended trace and a
    value or an exception.  Nothing in the script catches an exception, so
    [bind] stops at the first one. *)
Definition M (A : Type) : Type := Trace → Trace * Result A.

#[export] Instance M_ret : MRet M := λ A a tr, (tr, Return a).

#[export] Instance M_bind : MBind M := λ A B f m tr,
  match m tr with
  | (tr', Return a) => f a tr'
  | (tr', Raise e) => (tr', Raise e)
  end.

Definition raise {A} (e : Exn) : M A := λ tr, (tr, Raise e).

(** A pure builtin: no event. *)
Definition pure {A} (r : Result A) : M A := λ tr, (tr, r).

(** A call into a library: the world sees the history, the event records the
    answer. *)
Definition call {A} (f : Trace → Result A) (ev : Result A → Event) : M A :=
  λ tr, let r := f tr in (tr ++ [ev r], r).

Definition print (s : string) : M unit := λ tr, (tr ++ [E_print s], Return tt).

(** Python's truth value of an optional string ([None] and [''] are false)
    and of an optional list ([None] and [[]] are false). *)
Definition truthy_str (o : option string) : bool :=
  match o with
  | Some (String _ _) => true
  | _ => false
  end.

Definition truthy_list {A} (o : option (list A)) : bool :=
  match o with
  | Some (_ :: _) => true
  | _ => false
  end.

Definition newline : string := String (Ascii.ascii_of_nat 10) "".

(** The argument of [print] at lines 57 and 105. *)
Definition banner : string :=
  "============" +:+ newline +:+ "ERROR: Provide an mpid" +:+ newline
  +:+ "============".

(** ** The handlers *)

Section Script.

Variable w : World.

(** Leaving a [with] block: [__exit__] runs however the body ended.  It
    returns [None], so an exception of the body goes on after it; an
    exception of [__exit__] itself replaces it. *)
Definition leaving {A} (mgr : Obj cMPRester) (body : M A) : M A :=
  λ tr,
    match body tr with
    | (tr', Return a) =>
        (call (λ tr, exit w tr mgr None) (E_exit mgr None);; mret a) tr'
    | (tr', Raise e) =>
        (call (λ tr, exit w tr mgr (Some e)) (E_exit mgr (Some e));;
         raise e) tr'
    end.

(** [with MPRester(...) as mp: body]: the manager is built and entered, and
    the body runs on what [__enter__] returned. *)
Definition with_MPRester {A} (api_key : option string)
    (body : Obj cMPRester → M A) : M A :=
  mgr ← call (λ tr, MPRester w tr api_key) (E_MPRester api_key);
  mp ← call (λ tr, enter w tr mgr) (E_enter mgr);
  leaving mgr (body mp).

(** Lines 61-66 and 109-114: both branches fetch the same way and differ in
    how the client is built. *)
Definition fetch_prim_struct (mpid : string) (mapi_key : option string)
    : M (Obj cStructure) :=
  if negb (truthy_str mapi_key) then
    with_MPRester None (λ mp,
      call (λ tr, get_structure_by_material_id w tr mp mpid)
           (E_get_structure_by_material_id mp mpid))
  else
    with_MPRester mapi_key (λ mp,
      call (λ tr, get_structure_by_material_id w tr mp mpid)
           (E_get_structure_by_material_id mp mpid)).

(** Lines 75-77, one turn of the loop: the right-hand side is evaluated
    first, the lower bound before the upper one, then the key is set. *)
Definition oxi_range_step (oxi_range : list OxiTriple) (oxi_range_dict : OxiDict)
    (i : nat) : M OxiDict :=
  match oxi_range !! i with
  | Some (el, low, high) =>
      lo ← pure (int w low);
      hi ← pure (int w high);
      mret (<[el := (lo, hi)]> oxi_range_dict)
  | None => raise (Exception "IndexError" "list index out of range")
  end.

(** [for i in range(...)], threading the dictionary. *)
Fixpoint for_range (body : OxiDict → nat → M OxiDict) (range : list nat)
    (d : OxiDict) : M OxiDict :=
  match range with
  | [] => mret d
  | i :: range' => d' ← body d i; for_range body range' d'
  end.

(** Lines 74-77. *)
Definition build_oxi_range_dict (oxi_range : list OxiTriple) : M OxiDict :=
  for_range (oxi_range_step oxi_range) (seq 0 (length oxi_range)) ∅.

(** Lines 35-83.  [if not mpid] is true of [None] and of the empty string;
    [if oxi_range] is false of [None] and of the empty list. *)
Definition generate_input_files (args : Namespace) : M unit :=
  match mpid args with
  | None | Some "" => print banner
  | Some mpid =>
      prim_struct ← fetch_prim_struct mpid (mapi_key args);
      sga ← call (λ tr, SpacegroupAnalyzer w tr prim_struct)
                 (E_SpacegroupAnalyzer prim_struct);
      conv_struct ← call (λ tr, get_conventional_standard_structure w tr sga)
                         (E_get_conventional_standard_structure sga);
      call (λ tr, make_vasp_dielectric_files w tr prim_struct)
           (E_make_vasp_dielectric_files prim_struct);;
      def_structs ←
        match oxi_range args with
        | Some ((_ :: _) as oxi_range) =>
            oxi_range_dict ← build_oxi_range_dict oxi_range;
            call (λ tr, ChargedDefectsStructures w tr conv_struct
                          (Some oxi_range_dict) (nmax args))
                 (E_ChargedDefectsStructures conv_struct (Some oxi_range_dict)
                    (nmax args))
        | _ =>
            call (λ tr, ChargedDefectsStructures w tr conv_struct None
                          (nmax args))
                 (E_ChargedDefectsStructures conv_struct None (nmax args))
        end;
      defs ← call (λ tr, defects w tr def_structs) (E_defects def_structs);
      comp ← call (λ tr, composition w tr conv_struct)
                  (E_composition conv_struct);
      formula ← call (λ tr, reduced_formula w tr comp) (E_reduced_formula comp);
      call (λ tr, make_vasp_defect_files w tr defs formula)
           (E_make_vasp_defect_files defs formula)
  end.

(** Lines 86-116.  The fetched structure is bound and never read. *)
Definition parse_vasp_output (args : Namespace) : M unit :=
  match mpid args with
  | None | Some "" => print banner
  | Some mpid =>
      prim_struct ← fetch_prim_struct mpid (mapi_key args);
      pp ← call (λ tr, PostProcess w tr (root_fldr args) mpid (mapi_key args))
                (E_PostProcess (root_fldr args) mpid (mapi_key args));
      call (λ tr, parse_defect_calculations w tr pp)
           (E_parse_defect_calculations pp)
  end.

(** ** The command line (lines 119-171) *)

(** [type=str.lower] on the byte strings of [sys.argv]: the ASCII capitals
    are mapped to their small letters, every other byte is kept. *)
Definition byte_lower (c : Ascii.ascii) : Ascii.ascii :=
  let n := Ascii.nat_of_ascii c in
  if ((65 <=? n) && (n <=? 90))%nat then Ascii.ascii_of_nat (n + 32) else c.

Fixpoint str_lower (s : string) : string :=
  match s with
  | "" => ""
  | String c s' => String (byte_lower c) (str_lower s')
  end.

(** [parser.error(...)]: argparse prints its usage text and exits with
    status 2.  ([-h] prints the help and exits with status 0.)  What argparse
    itself prints is not part of the trace. *)
Definition parser_error {A} : Result A := Raise (SystemExit 2).

(** The handler [set_defaults(func=...)] attaches to each sub-parser. *)
Inductive Func := func_generate_input_files | func_parse_vasp_output.

(** A sub-parser starts from the defaults of its arguments: an argument
    without [default=] has [None] (lines 149-156 and 162-167).  The
    namespace of [parse_vasp_output] has no [nmax] and no [oxi_range], and
    that of [generate_input_files] no [root_fldr]; the values they are given
    here are never read. *)
Definition parser_input_files_defaults : Namespace :=
  {| mpid := None; mapi_key := None; nmax := 128; oxi_range := None;
     root_fldr := None |}.

Definition parser_vasp_output_defaults : Namespace :=
  {| mpid := None; mapi_key := None; nmax := 128; oxi_range := None;
     root_fldr := None |}.

(** One option occurrence of [generate_input_files] (lines 149-156): the
    [store] action (the default one) takes one argument, converts it with
    [type] and overwrites [dest]; [append] with [nargs=3] converts three
    arguments and appends their list to [dest], a missing list counting as
    empty.  A conversion that raises is a parser error. *)
Definition parser_input_files (ns : Namespace) (occ : string * list string)
    : Result Namespace :=
  let '(opt, values) := occ in
  if decide (opt = "--mpid") then
    match values with
    | [v] => Return (set_mpid ns (Some (str_lower v)))
    | _ => parser_error
    end
  else if decide (opt = "--mapi_key") then
    match values with
    | [v] => Return (set_mapi_key ns (Some v))
    | _ => parser_error
    end
  else if decide (opt = "--nmax") then
    match values with
    | [v] =>
        match int w v with
        | Return n => Return (set_nmax ns n)
        | Raise _ => parser_error
        end
    | _ => parser_error
    end
  else if decide (opt = "--oxi_range") then
    match values with
    | [el; low; high] =>
        Return (set_oxi_range ns
                  (Some (default [] (oxi_range ns) ++ [(el, low, high)])))
    | _ => parser_error
    end
  else if decide (opt = "-h" ∨ opt = "--help") then Raise (SystemExit 0)
  else parser_error.

(** One option occurrence of [parse_vasp_output] (lines 162-167). *)
Definition parser_vasp_output (ns : Namespace) (occ : string * list string)
    : Result Namespace :=
  let '(opt, values) := occ in
  if decide (opt = "--mpid") then
    match values with
    | [v] => Return (set_mpid ns (Some (str_lower v)))
    | _ => parser_error
    end
  else if decide (opt = "--mapi_key") then
    match values with
    | [v] => Return (set_mapi_key ns (Some v))
    | _ => parser_error
    end
  else if decide (opt = "--dir") then
    match values with
    | [v] => Return (set_root_fldr ns (Some v))
    | _ => parser_error
    end
  else if decide (opt = "-h" ∨ opt = "--help") then Raise (SystemExit 0)
  else parser_error.

(** The occurrences are applied in command-line order. *)
Fixpoint apply_options (action : Namespace → string * list string → Result Namespace)
    (occs : list (string * list string)) (ns : Namespace) : Result Namespace :=
  match occs with
  | [] => Return ns
  | occ :: occs' =>
      match action ns occ with
      | Return ns' => apply_options action occs' ns'
      | Raise e => Raise e
      end
  end.

(** [parser.parse_args()] at line 170. *)
Definition parse_args (argv : list string) : Result (Func * Namespace) :=
  match scan w argv with
  | Return (command, occs) =>
      if decide (command = "generate_input_files") then
        match apply_options parser_input_files occs parser_input_files_defaults with
        | Return ns => Return (func_generate_input_files, ns)
        | Raise e => Raise e
        end
      else if decide (command = "parse_vasp_output") then
        match apply_options parser_vasp_output occs parser_vasp_output_defaults with
        | Return ns => Return (func_parse_vasp_output, ns)
        | Raise e => Raise e
        end
      else parser_error
  | Raise e => Raise e
  end.

(** Lines 170-171: [args.func(args)]. *)
Definition main (argv : list string) : M unit :=
  '(func, args) ← pure (parse_args argv);
  match func with
  | func_generate_input_files => generate_input_files args
  | func_parse_vasp_output => parse_vasp_output args
  end.

(** A run of the script starts with no call made. *)
Definition run {A} (m : M A) : Trace * Result A := m [].

Definition trace_of {A} (m : M A) : Trace := (run m).1.

Definition outcome_of {A} (m : M A) : Result A := (run m).2.

End Script.

(** The exit status of the process: 0 when [main] returns, the code of a
    [SystemExit], and 1 after any other uncaught exception. *)
Definition exit_status (r : Result unit) : Z :=
  match r with
  | Return _ => 0
  | Raise (SystemExit code) => code
  | Raise (Exception _ _) => 1
  end.

(** ** A concrete world *)

(** A world to run the script in.  [int] reads plain decimal literals with an
    optional sign, as Python's does on them, and raises [ValueError] on
    everything else; [scan] takes the first word as the sub-command and
    every word that starts with two dashes (or is [-h]) as an option that
    owns the words up to the next option; every library call succeeds and
    returns an object numbered by its position in the trace, and the
    reduced formula is [Si].  What the database answers to a fetch can be
    chosen. *)
Module Sample.

Definition digit (c : Ascii.ascii) : option Z :=
  let n := Ascii.nat_of_ascii c in
  if ((48 <=? n) && (n <=? 57))%nat then Some (Z.of_nat (n - 48)) else None.

Fixpoint digits (s : string) (acc : Z) : option Z :=
  match s with
  | "" => Some acc
  | String c s' =>
      match digit c with
      | Some d => digits s' (10 * acc + d)
      | None => None
      end
  end.

Definition invalid_literal {A} (s : string) : Result A :=
  Raise (Exception "ValueError"
           ("invalid literal for int() with base 10: '" +:+ s +:+ "'")).

Definition decimal_int (s : string) : Result Z :=
  let unsigned (t : string) : option Z :=
    match t with
    | "" => None
    | _ => digits t 0
    end in
  let signed : option Z :=
    match s with
    | String c t =>
        if decide (c = Ascii.ascii_of_nat 45) then Z.opp <$> unsigned t
        else if decide (c = Ascii.ascii_of_nat 43) then unsigned t
        else unsigned s
    | "" => None
    end in
  match signed with
  | Some z => Return z
  | None => invalid_literal s
  end.

Definition is_option (word : string) : bool :=
  bool_decide (word = "-h") || String.prefix "--" word.

Fixpoint occurrences (words : list string)
    : list string * list (string * list string) :=
  match words with
  | [] => ([], [])
  | word :: words' =>
      let '(values, occs) := occurrences words' in
      if is_option word then ([], (word, values) :: occs)
      else (word :: values, occs)
  end.

Definition scan_words (argv : list string)
    : Result (string * list (string * list string)) :=
  match argv with
  | [] => Raise (SystemExit 2)
  | command :: words =>
      match occurrences words with
      | ([], occs) => Return (command, occs)
      | _ => Raise (SystemExit 2)
      end
  end.

Definition fresh {c} (tr : Trace) : Result (Obj c) := Return (Ref (length tr)).

(** The world, given what the database answers to a fetch. *)
Definition world_fetching
    (fetch : Trace → Obj cMPRester → string → Result (Obj cStructure))
    : World :=
  {| int := decimal_int;
     scan := scan_words;
     MPRester := λ tr _, fresh tr;
     enter := λ _ mgr, Return mgr;
     get_structure_by_material_id := fetch;
     exit := λ _ _ _, Return tt;
     SpacegroupAnalyzer := λ tr _, fresh tr;
     get_conventional_standard_structure := λ tr _, fresh tr;
     make_vasp_dielectric_files := λ _ _, Return tt;
     ChargedDefectsStructures := λ tr _ _ _, fresh tr;
     defects := λ tr _, fresh tr;
     composition := λ tr _, fresh tr;
     reduced_formula := λ _ _, Return "Si";
     make_vasp_defect_files := λ _ _ _, Return tt;
     PostProcess := λ tr _ _ _, fresh tr;
     parse_defect_calculations := λ _ _, Return tt |}.

Definition world : World := world_fetching (λ tr _ _, fresh tr).

(** The database is down. *)
Definition offline : World :=
  world_fetching (λ _ _ _, Raise (Exception "MPRestError" "REST query failed")).

End Sample.

(** ** Vocabulary of the statements *)

(** What the loop computes, by recursion on the triples still to read. *)
Fixpoint oxi_dict_from (w : World) (triples : list OxiTriple) (d : OxiDict)
    : Result OxiDict :=
  match triples with
  | [] => Return d
  | (el, low, high) :: triples' =>
      match int w low with
      | Return lo =>
          match int w high with
          | Return hi => oxi_dict_from w triples' (<[el := (lo, hi)]> d)
          | Raise e => Raise e
          end
      | Raise e => Raise e
      end
  end.

(** The argument list of the client's constructor at lines 61-66. *)
Definition MPRester_argument (mapi_key : option string) : option string :=
  if truthy_str mapi_key then mapi_key else None.

(** The argument lists of the calls of [PostProcess] in a trace. *)
Definition PostProcess_calls (tr : Trace)
    : list (option string * string * option string) :=
  tr ≫= λ ev,
    match ev with
    | E_PostProcess root id key _ => [(root, id, key)]
    | _ => []
    end.

(** C6 as the specification words it: the client is built with whatever
    [--mapi_key] holds, nothing when the option is left out. *)
Definition mapi_key_reaches_MPRester (handler : World → Namespace → M unit)
    (w : World) (args : Namespace) : Prop :=
  ∀ key r, E_MPRester key r ∈ trace_of (handler w args) → key = mapi_key args.

(** C2 as the specification words it: each triple has its own entry in the
    dictionary the enumerator receives. *)
Definition every_triple_has_its_entry (w : World) (args : Namespace) : Prop :=
  ∀ triples s d n r el low high,
    oxi_range args = Some triples →
    E_ChargedDefectsStructures s (Some d) n r
      ∈ trace_of (generate_input_files w args) →
    (el, low, high) ∈ triples →
    ∃ lo hi, int w low = Return lo ∧ int w high = Return hi
             ∧ d !! el = Some (lo, hi).

(** The exception a result carries, if it is one: what [__exit__] is told
    about the body of the [with] block. *)
Definition exception_of {A} (r : Result A) : option Exn :=
  match r with
  | Raise e => Some e
  | Return _ => None
  end.

(** The place of a call in the text of [generate_input_files] (lines 61-83),
    counted from 0; 12 stands for what the handler has no call of. *)
Definition generate_input_files_position (ev : Event) : nat :=
  match ev with
  | E_MPRester _ _ => 0
  | E_enter _ _ => 1
  | E_get_structure_by_material_id _ _ _ => 2
  | E_exit _ _ _ => 3
  | E_SpacegroupAnalyzer _ _ => 4
  | E_get_conventional_standard_structure _ _ => 5
  | E_make_vasp_dielectric_files _ _ => 6
  | E_ChargedDefectsStructures _ _ _ _ => 7
  | E_defects _ _ => 8
  | E_composition _ _ => 9
  | E_reduced_formula _ _ => 10
  | E_make_vasp_defect_files _ _ _ => 11
  | E_print _ | E_PostProcess _ _ _ _ | E_parse_defect_calculations _ _ => 12
  end%nat.

(** The place of a call in the text of [parse_vasp_output] (lines 109-116);
    6 stands for what the handler has no call of. *)
Definition parse_vasp_output_position (ev : Event) : nat :=
  match ev with
  | E_MPRester _ _ => 0
  | E_enter _ _ => 1
  | E_get_structure_by_material_id _ _ _ => 2
  | E_exit _ _ _ => 3
  | E_PostProcess _ _ _ _ => 4
  | E_parse_defect_calculations _ _ => 5
  | _ => 6
  end%nat.

(** The calls only [generate_input_files] has, and the calls only
    [parse_vasp_output] has. *)
Definition generates_input (ev : Event) : bool :=
  match ev with
  | E_SpacegroupAnalyzer _ _ | E_get_conventional_standard_structure _ _
  | E_make_vasp_dielectric_files _ _ | E_ChargedDefectsStructures _ _ _ _
  | E_defects _ _ | E_composition _ _ | E_reduced_formula _ _
  | E_make_vasp_defect_files _ _ _ => true
  | _ => false
  end.

Definition post_processes (ev : Event) : bool :=
  match ev with
  | E_PostProcess _ _ _ _ | E_parse_defect_calculations _ _ => true
  | _ => false
  end.

(** The triples of the [--oxi_range] occurrences of a command line, in
    order. *)
Definition oxi_range_occurrences (occs : list (string * list string))
    : list OxiTriple :=
  occs ≫= λ occ,
    if decide (occ.1 = "--oxi_range") then
      match occ.2 with
      | [el; low; high] => [(el, low, high)]
      | _ => []
      end
    else [].

(** Both bounds of a triple are read by [int]. *)
Definition converts (w : World) (t : OxiTriple) : Prop :=
  ∃ lo hi, int w t.1.2 = Return lo ∧ int w t.2 = Return hi.

(** An option occurrence the sub-parser of [generate_input_files] takes
    (lines 149-156): one argument for [--mpid] and for [--mapi_key], one
    argument that [int] reads for [--nmax], any three arguments for
    [--oxi_range]. *)
Definition input_files_option (w : World) (occ : string * list string) : Prop :=
  (∃ v, occ = ("--mpid", [v]))
  ∨ (∃ v, occ = ("--mapi_key", [v]))
  ∨ (∃ v n, occ = ("--nmax", [v]) ∧ int w v = Return n)
  ∨ (∃ el low high, occ = ("--oxi_range", [el; low; high])).

(** The help option argparse adds to every parser. *)
Definition help_option (occ : string * list string) : Prop :=
  occ.1 = "-h" ∨ occ.1 = "--help".

(** * Properties *)

(** ** The loop of lines 74-77 *)

Section Oxi_range_dict.

Variable w : World.

(** The index loop reads the triples in order and makes no call. *)
Lemma for_range_oxi_dict_from (todo seen : list OxiTriple) (d : OxiDict)
    (tr : Trace) :
  for_range (oxi_range_step w (seen ++ todo))
    (seq (length seen) (length todo)) d tr
  = (tr, oxi_dict_from w todo d).
Proof.
  revert seen d.
  induction todo as [|[[el low] high] todo IH]; intros seen d; [done|].
  cbn [length seq for_range oxi_dict_from].
  unfold mbind, M_bind, oxi_range_step at 1.
  rewrite list_lookup_middle by done.
  unfold pure, mret, M_ret.
  destruct (int w low) as [lo|e]; [|done].
  destruct (int w high) as [hi|e]; [|done].
  specialize (IH (seen ++ [(el, low, high)]) (<[el := (lo, hi)]> d)).
  rewrite <- app_assoc, length_app, Nat.add_1_r in IH.
  exact IH.
Qed.

Lemma build_oxi_range_dict_pure (oxi_range : list OxiTriple) (tr : Trace) :
  build_oxi_range_dict w oxi_range tr = (tr, oxi_dict_from w oxi_range ∅).
Proof. apply (for_range_oxi_dict_from oxi_range []). Qed.

(** A key no triple names keeps its value. *)
Lemma oxi_dict_from_other (triples : list OxiTriple) (d0 d : OxiDict)
    (el : string) :
  oxi_dict_from w triples d0 = Return d →
  (∀ t, t ∈ triples → t.1.1 ≠ el) →
  d !! el = d0 !! el.
Proof.
  revert d0.
  induction triples as [|[[el' low] high] triples IH]; intros d0 Hrun Hel.
  - by injection Hrun as <-.
  - cbn in Hrun.
    destruct (int w low) as [lo|]; [|done].
    destruct (int w high) as [hi|]; [|done].
    rewrite (IH _ Hrun); [|intros t Ht; apply Hel; by right].
    apply lookup_insert_ne.
    apply (Hel (el', low, high)); by left.
Qed.

(** The last triple that names an element decides its entry. *)
Lemma oxi_dict_from_last (before after : list OxiTriple) (d0 d : OxiDict)
    (el low high : string) :
  oxi_dict_from w (before ++ (el, low, high) :: after) d0 = Return d →
  (∀ t, t ∈ after → t.1.1 ≠ el) →
  ∃ lo hi, int w low = Return lo ∧ int w high = Return hi
           ∧ d !! el = Some (lo, hi).
Proof.
  revert d0.
  induction before as [|[[el' low'] high'] before IH]; intros d0 Hrun Hel.
  - cbn in Hrun.
    destruct (int w low) as [lo|]; [|done].
    destruct (int w high) as [hi|]; [|done].
    exists lo, hi. split_and!; [done..|].
    rewrite (oxi_dict_from_other _ _ _ _ Hrun Hel).
    apply lookup_insert_eq.
  - cbn in Hrun.
    destruct (int w low') as [lo'|]; [|done].
    destruct (int w high') as [hi'|]; [|done].
    by apply (IH _ Hrun).
Qed.

(** Every bound of every triple was converted when the loop ends normally. *)
Lemma oxi_dict_from_converted (triples : list OxiTriple) (d0 d : OxiDict)
    (el low high : string) :
  oxi_dict_from w triples d0 = Return d →
  (el, low, high) ∈ triples →
  ∃ lo hi, int w low = Return lo ∧ int w high = Return hi.
Proof.
  revert d0.
  induction triples as [|[[el' low'] high'] triples IH]; intros d0 Hrun Hin.
  - by apply elem_of_nil in Hin.
  - cbn in Hrun.
    destruct (int w low') as [lo'|] eqn:Hlo; [|done].
    destruct (int w high') as [hi'|] eqn:Hhi; [|done].
    apply elem_of_cons in Hin as [Heq|Hin]; [|by apply (IH _ Hrun)].
    injection Heq as -> -> ->. by exists lo', hi'.
Qed.

(** The loop ends normally when every bound converts. *)
Lemma oxi_dict_from_returns (triples : list OxiTriple) (d0 : OxiDict) :
  (∀ el low high, (el, low, high) ∈ triples →
     ∃ lo hi, int w low = Return lo ∧ int w high = Return hi) →
  ∃ d, oxi_dict_from w triples d0 = Return d.
Proof.
  revert d0.
  induction triples as [|[[el low] high] triples IH]; intros d0 Hall.
  - by eexists.
  - cbn.
    destruct (Hall el low high) as (lo & hi & -> & ->); [by left|].
    apply IH. intros el' low' high' Hin. apply (Hall el'). by right.
Qed.

(** The keys of the dictionary are elements the triples name. *)
Lemma oxi_dict_from_keys (triples : list OxiTriple) (d0 d : OxiDict)
    (el : string) :
  oxi_dict_from w triples d0 = Return d →
  is_Some (d !! el) →
  is_Some (d0 !! el) ∨ ∃ low high, (el, low, high) ∈ triples.
Proof.
  revert d0.
  induction triples as [|[[el' low] high] triples IH]; intros d0 Hrun Hd.
  - injection Hrun as <-. by left.
  - cbn in Hrun.
    destruct (int w low) as [lo|]; [|done].
    destruct (int w high) as [hi|]; [|done].
    destruct (IH _ Hrun Hd) as [Hins|(low' & high' & Hin)].
    + destruct (decide (el' = el)) as [->|Hne].
      * right. exists low, high. by left.
      * left. by rewrite lookup_insert_ne in Hins.
    + right. exists low', high'. by right.
Qed.

(** The loop raises what the first conversion that fails raises. *)
Lemma oxi_dict_from_raises (triples : list OxiTriple) (d0 : OxiDict) (e : Exn) :
  oxi_dict_from w triples d0 = Raise e →
  ∃ el low high, (el, low, high) ∈ triples
                 ∧ (int w low = Raise e ∨ int w high = Raise e).
Proof.
  revert d0.
  induction triples as [|[[el low] high] triples IH]; intros d0 Hrun; [done|].
  cbn in Hrun.
  destruct (int w low) as [lo|e1] eqn:Hlo.
  - destruct (int w high) as [hi|e2] eqn:Hhi.
    + destruct (IH _ Hrun) as (el' & low' & high' & Hin & Hor).
      exists el', low', high'. split; [by right|done].
    + injection Hrun as ->. exists el, low, high. split; [by left|by right].
  - injection Hrun as ->. exists el, low, high. split; [by left|by left].
Qed.

End Oxi_range_dict.

(** ** Running a handler by cases on what the world answers *)

Ltac script_unfold :=
  unfold trace_of, outcome_of, run, main, generate_input_files, parse_vasp_output,
    fetch_prim_struct, with_MPRester, leaving, call, print, raise, pure,
    mbind, M_bind, mret, M_ret.

(** One call further: the next answer is a value or an exception. *)
Ltac script_step :=
  first
    [ rewrite build_oxi_range_dict_pure
    | match goal with
      | |- context [match ?x with Return _ => _ | Raise _ => _ end] =>
          destruct x eqn:?
      end ];
  cbn [app negb fst snd].

(** Membership in a trace that is known event by event. *)
Ltac trace_cases :=
  repeat match goal with
    | H : _ ∈ [] |- _ => exfalso; exact (proj1 (elem_of_nil _) H)
    | H : _ ∈ _ :: _ |- _ => apply elem_of_cons in H as [?|?]
    end;
  simplify_eq/=.

(** An event with the wanted shape is somewhere in a known trace. *)
Ltac trace_elem :=
  solve [repeat eexists;
         eauto 20 using list_elem_of_here, list_elem_of_further].

(** A handler run to its end, whatever the world answers. *)
Ltac script_run :=
  script_unfold; repeat script_step;
  try match goal with
    | |- (_, ?r) = _ → _ =>
        lazymatch r with
        | Return _ => idtac
        | Raise _ => idtac
        | _ => destruct r eqn:?
        end
    end;
  intros [= <- <-];
  repeat match goal with u : () |- _ => destruct u end.

(** The trace and the outcome of a run, named, and the run set aside as an
    equation to be worked on by [script_run]. *)
Ltac script_name m tr out :=
  unfold trace_of, outcome_of;
  let Hrun := fresh "Hrun" in
  destruct (run m) as [tr out] eqn:Hrun; cbn [fst snd]; revert Hrun.

(** A run in a concrete world, evaluated. *)
Ltac trace_compute :=
  repeat match goal with
    | |- context [trace_of ?m] =>
        let v := eval vm_compute in (trace_of m) in
        change (trace_of m) with v
    | |- context [outcome_of ?m] =>
        let v := eval vm_compute in (outcome_of m) in
        change (outcome_of m) with v
    end.

Lemma fetch_prim_struct_eq (w : World) (mpid : string)
    (mapi_key : option string) :
  fetch_prim_struct w mpid mapi_key
  = with_MPRester w (MPRester_argument mapi_key) (λ mp,
      call (λ tr, get_structure_by_material_id w tr mp mpid)
           (E_get_structure_by_material_id mp mpid)).
Proof.
  unfold fetch_prim_struct, MPRester_argument.
  by destruct (truthy_str mapi_key).
Qed.

Lemma truthy_str_Some (o : option string) :
  truthy_str o = true → ∃ c s, o = Some (String c s).
Proof. destruct o as [[|c s]|]; [done| |done]. by exists c, s. Qed.

Lemma truthy_str_false (o : option string) :
  truthy_str o = false ↔ o = None ∨ o = Some "".
Proof.
  destruct o as [[|c s]|]; (split; [intros ?|intros [?|?]]); auto; done.
Qed.

(** The banner is the text of the source, line breaks included. *)
Example banner_text :
  banner = "============
ERROR: Provide an mpid
============".
Proof. reflexivity. Qed.

(** ** C1: a missing identifier *)

(** C1.  When [--mpid] is missing or empty, either handler prints exactly
    the error banner and returns: the trace of the whole run is that one
    [print], so no client is built, no structure is fetched and no file is
    written; [main] then returns too, and the exit status is 0. *)
Theorem missing_mpid_prints_banner (w : World) (args : Namespace) :
  truthy_str (mpid args) = false →
  run (generate_input_files w args) = ([E_print banner], Return tt)
  ∧ run (parse_vasp_output w args) = ([E_print banner], Return tt)
  ∧ ∀ argv func, parse_args w argv = Return (func, args) →
      run (main w argv) = ([E_print banner], Return tt)
      ∧ exit_status (run (main w argv)).2 = 0.
Proof.
  intros Hmpid.
  assert (run (generate_input_files w args) = ([E_print banner], Return tt))
    as Hgen.
  { unfold run, generate_input_files.
    by destruct (mpid args) as [[|c s]|]. }
  assert (run (parse_vasp_output w args) = ([E_print banner], Return tt))
    as Hparse.
  { unfold run, parse_vasp_output.
    by destruct (mpid args) as [[|c s]|]. }
  split_and!; [done..|].
  intros argv func Hargs.
  assert (run (main w argv) = ([E_print banner], Return tt)) as ->; [|done].
  unfold run, main, pure, mbind, M_bind. rewrite Hargs.
  by destruct func.
Qed.

Lemma missing_mpid_prints_banner_witness :
  run (generate_input_files Sample.world parser_input_files_defaults)
    = ([E_print banner], Return tt)
  ∧ run (parse_vasp_output Sample.world parser_input_files_defaults)
    = ([E_print banner], Return tt)
  ∧ ∀ argv func,
      parse_args Sample.world argv
        = Return (func, parser_input_files_defaults) →
      run (main Sample.world argv) = ([E_print banner], Return tt)
      ∧ exit_status (run (main Sample.world argv)).2 = 0.
Proof.
  apply (missing_mpid_prints_banner Sample.world parser_input_files_defaults).
  reflexivity.
Defined.

(** The command lines [generate_input_files --mapi_key k] and
    [parse_vasp_output --mpid ''], run whole. *)
Example main_without_mpid :
  run (main Sample.world ["generate_input_files"; "--mapi_key"; "k"])
  = ([E_print banner], Return tt).
Proof. vm_compute. reflexivity. Qed.

Example main_with_empty_mpid :
  run (main Sample.world ["parse_vasp_output"; "--mpid"; ""; "--dir"; "out"])
  = ([E_print banner], Return tt).
Proof. vm_compute. reflexivity. Qed.

(** ** C6: the key of the database client *)

(** An empty [--mapi_key] is supplied and is not passed on: [not mapi_key]
    at lines 61 and 109 is true of the empty string, and the client is built
    without argument. *)
Lemma empty_mapi_key_not_passed :
  let args := {| mpid := Some "mp-149"; mapi_key := Some ""; nmax := 128;
                 oxi_range := None; root_fldr := None |} in
  ¬ mapi_key_reaches_MPRester generate_input_files Sample.world args
  ∧ ¬ mapi_key_reaches_MPRester parse_vasp_output Sample.world args.
Proof.
  split; intros Hclaim;
    specialize (Hclaim None (Return (Ref 0)));
    (discriminate Hclaim; vm_compute; apply list_elem_of_here).
Qed.

(** C6, amended.  With an identifier given, the first call of either handler
    builds the client, and it is the only time a client is built: with the
    key when [--mapi_key] is a non-empty string, and without any argument
    when [--mapi_key] was left out ([None]) or is the empty string. *)
Theorem MPRester_built_with_key (w : World) (args : Namespace) :
  truthy_str (mpid args) = true →
  let built_with (handler : World → Namespace → M unit) key :=
    ∃ r rest, trace_of (handler w args) = E_MPRester key r :: rest
              ∧ ∀ key' r', E_MPRester key' r' ∉ rest in
  (∀ c k, mapi_key args = Some (String c k) →
     built_with generate_input_files (Some (String c k))
     ∧ built_with parse_vasp_output (Some (String c k)))
  ∧ (mapi_key args = None ∨ mapi_key args = Some "" →
     built_with generate_input_files None
     ∧ built_with parse_vasp_output None).
Proof.
  intros (c & id & Hid)%truthy_str_Some built_with.
  assert (built_with generate_input_files (MPRester_argument (mapi_key args))
          ∧ built_with parse_vasp_output (MPRester_argument (mapi_key args)))
    as Hbuilt.
  { subst built_with. cbv beta.
    generalize (MPRester_argument (mapi_key args))
      (fetch_prim_struct_eq w (String c id) (mapi_key args)).
    intros key Hfetch. split.
    - script_name (generate_input_files w args) tr out.
      unfold run, generate_input_files. rewrite Hid, Hfetch.
      destruct (oxi_range args) as [[|t l]|]; script_run;
        (eexists _, _; split; [reflexivity|]; intros key' r' Hin;
         trace_cases).
    - script_name (parse_vasp_output w args) tr out.
      unfold run, parse_vasp_output. rewrite Hid, Hfetch.
      script_run;
        (eexists _, _; split; [reflexivity|]; intros key' r' Hin;
         trace_cases). }
  split.
  - intros c' k Hkey. by rewrite Hkey in Hbuilt.
  - intros Hkey%truthy_str_false.
    unfold MPRester_argument in Hbuilt. by rewrite Hkey in Hbuilt.
Qed.

Lemma MPRester_built_with_key_witness :
  let with_key := {| mpid := Some "mp-149"; mapi_key := Some "k"; nmax := 128;
                     oxi_range := None; root_fldr := None |} in
  let empty_key := {| mpid := Some "mp-149"; mapi_key := Some ""; nmax := 128;
                      oxi_range := None; root_fldr := None |} in
  (∃ r rest,
     trace_of (generate_input_files Sample.world with_key)
       = E_MPRester (Some "k") r :: rest
     ∧ ∀ key' r', E_MPRester key' r' ∉ rest)
  ∧ (∃ r rest,
       trace_of (parse_vasp_output Sample.world empty_key)
         = E_MPRester None r :: rest
       ∧ ∀ key' r', E_MPRester key' r' ∉ rest).
Proof.
  intros with_key empty_key. split.
  - apply (MPRester_built_with_key Sample.world with_key eq_refl).
    reflexivity.
  - apply (MPRester_built_with_key Sample.world empty_key eq_refl).
    right. reflexivity.
Defined.

(** ** C3, C4, C10: which structure goes where *)

(** C3.  With an identifier given, the symmetry analyser is built on the
    structure that was fetched, the enumerator is called on the
    conventional cell the analyser returned, and the defect files are
    written from the enumerator's defects and the reduced formula of that
    conventional cell; when the handler returns, the run was exactly these
    twelve calls. *)
Theorem defect_files_from_conventional_cell (w : World) (args : Namespace) :
  truthy_str (mpid args) = true →
  let tr := trace_of (generate_input_files w args) in
  (∀ s r, E_SpacegroupAnalyzer s r ∈ tr →
     ∃ mp id, E_get_structure_by_material_id mp id (Return s) ∈ tr)
  ∧ (∀ sga r, E_get_conventional_standard_structure sga r ∈ tr →
       ∃ prim, E_SpacegroupAnalyzer prim (Return sga) ∈ tr)
  ∧ (∀ s oxi n r, E_ChargedDefectsStructures s oxi n r ∈ tr →
       ∃ sga, E_get_conventional_standard_structure sga (Return s) ∈ tr)
  ∧ (∀ d f r, E_make_vasp_defect_files d f r ∈ tr →
       ∃ sga conv oxi n ds comp,
         E_get_conventional_standard_structure sga (Return conv) ∈ tr
         ∧ E_ChargedDefectsStructures conv oxi n (Return ds) ∈ tr
         ∧ E_defects ds (Return d) ∈ tr
         ∧ E_composition conv (Return comp) ∈ tr
         ∧ E_reduced_formula comp (Return f) ∈ tr)
  ∧ (outcome_of (generate_input_files w args) = Return tt →
     ∃ key id mgr mp prim sga conv oxi ds d comp f,
       mpid args = Some id
       ∧ tr = [E_MPRester key (Return mgr);
             E_enter mgr (Return mp);
             E_get_structure_by_material_id mp id (Return prim);
             E_exit mgr None (Return tt);
             E_SpacegroupAnalyzer prim (Return sga);
             E_get_conventional_standard_structure sga (Return conv);
             E_make_vasp_dielectric_files prim (Return tt);
             E_ChargedDefectsStructures conv oxi (nmax args) (Return ds);
             E_defects ds (Return d);
             E_composition conv (Return comp);
             E_reduced_formula comp (Return f);
             E_make_vasp_defect_files d f (Return tt)]).
Proof.
  intros (c & id & Hid)%truthy_str_Some tr. subst tr.
  script_name (generate_input_files w args) tr out.
  unfold run, generate_input_files. rewrite Hid, fetch_prim_struct_eq.
  generalize (MPRester_argument (mapi_key args)); intros key.
  destruct (oxi_range args) as [[|t l]|]; script_run.
  all: split_and!; intros; trace_cases; try trace_elem.
Qed.

Lemma defect_files_from_conventional_cell_witness :
  let args := {| mpid := Some "mp-149"; mapi_key := None; nmax := 128;
                 oxi_range := Some [("As", "-3", "5")]; root_fldr := None |} in
  ∃ key id mgr mp prim sga conv oxi ds d comp f,
    mpid args = Some id
    ∧ trace_of (generate_input_files Sample.world args)
    = [E_MPRester key (Return mgr);
       E_enter mgr (Return mp);
       E_get_structure_by_material_id mp id (Return prim);
       E_exit mgr None (Return tt);
       E_SpacegroupAnalyzer prim (Return sga);
       E_get_conventional_standard_structure sga (Return conv);
       E_make_vasp_dielectric_files prim (Return tt);
       E_ChargedDefectsStructures conv oxi (nmax args) (Return ds);
       E_defects ds (Return d);
       E_composition conv (Return comp);
       E_reduced_formula comp (Return f);
       E_make_vasp_defect_files d f (Return tt)].
Proof.
  intros args.
  apply (defect_files_from_conventional_cell Sample.world args eq_refl).
  reflexivity.
Defined.

(** C4.  With [--oxi_range] left out, every call of the enumerator has two
    arguments only, the conventional cell and [cellmax]; and the enumerator
    is called as soon as the dielectric files are written. *)
Theorem no_oxi_range_no_mapping (w : World) (args : Namespace) :
  oxi_range args = None →
  let tr := trace_of (generate_input_files w args) in
  (∀ s oxi n r, E_ChargedDefectsStructures s oxi n r ∈ tr →
     oxi = None ∧ n = nmax args
     ∧ ∃ sga, E_get_conventional_standard_structure sga (Return s) ∈ tr)
  ∧ (∀ prim, E_make_vasp_dielectric_files prim (Return tt) ∈ tr →
       ∃ conv r, E_ChargedDefectsStructures conv None (nmax args) r ∈ tr).
Proof.
  intros Hoxi tr. subst tr.
  script_name (generate_input_files w args) tr out.
  unfold run, generate_input_files. rewrite Hoxi.
  destruct (mpid args) as [[|c id]|].
  1,3: intros [= <- <-]; split; intros; trace_cases.
  rewrite fetch_prim_struct_eq.
  generalize (MPRester_argument (mapi_key args)); intros key.
  script_run.
  all: split_and!; intros; trace_cases; try trace_elem.
Qed.

Lemma no_oxi_range_no_mapping_witness :
  let args := {| mpid := Some "mp-149"; mapi_key := None; nmax := 64;
                 oxi_range := None; root_fldr := None |} in
  ∃ conv r,
    E_ChargedDefectsStructures conv None 64 r
    ∈ trace_of (generate_input_files Sample.world args).
Proof.
  intros args.
  destruct (no_oxi_range_no_mapping Sample.world args eq_refl) as [_ Hcalled].
  apply (Hcalled (Ref 2)).
  trace_compute. trace_elem.
Defined.

(** C10.  The dielectric files are written from the structure as it was
    fetched; the conventional cell goes to the enumerator and to the
    composition the formula is read from, and nowhere else.  The dielectric
    files are written as soon as the conventional cell is there. *)
Theorem dielectric_files_from_primitive_cell (w : World) (args : Namespace) :
  let tr := trace_of (generate_input_files w args) in
  (∀ s r, E_make_vasp_dielectric_files s r ∈ tr →
     ∃ mp id, E_get_structure_by_material_id mp id (Return s) ∈ tr)
  ∧ (∀ s oxi n r, E_ChargedDefectsStructures s oxi n r ∈ tr →
       ∃ sga, E_get_conventional_standard_structure sga (Return s) ∈ tr)
  ∧ (∀ s r, E_composition s r ∈ tr →
       ∃ sga, E_get_conventional_standard_structure sga (Return s) ∈ tr)
  ∧ (∀ sga conv, E_get_conventional_standard_structure sga (Return conv) ∈ tr →
       ∃ mp id prim r,
         E_get_structure_by_material_id mp id (Return prim) ∈ tr
         ∧ E_make_vasp_dielectric_files prim r ∈ tr).
Proof.
  intros tr. subst tr.
  script_name (generate_input_files w args) tr out.
  unfold run, generate_input_files.
  destruct (mpid args) as [[|c id]|].
  1,3: intros [= <- <-]; split_and!; intros; trace_cases.
  rewrite fetch_prim_struct_eq.
  generalize (MPRester_argument (mapi_key args)); intros key.
  destruct (oxi_range args) as [[|t l]|]; script_run.
  all: split_and!; intros; trace_cases; try trace_elem.
Qed.

(** A world whose conventional cell is another object than the fetched one:
    the dielectric writer gets the fetched one. *)
Example dielectric_files_not_from_conventional_cell :
  let args := {| mpid := Some "mp-149"; mapi_key := None; nmax := 128;
                 oxi_range := None; root_fldr := None |} in
  let tr := trace_of (generate_input_files Sample.world args) in
  E_get_structure_by_material_id (Ref 0) "mp-149" (Return (Ref 2)) ∈ tr
  ∧ E_get_conventional_standard_structure (Ref 4) (Return (Ref 5)) ∈ tr
  ∧ E_make_vasp_dielectric_files (Ref 2) (Return tt) ∈ tr
  ∧ ∀ r, E_make_vasp_dielectric_files (Ref 5) r ∉ tr.
Proof.
  intros args tr. subst tr. trace_compute.
  split_and!; [trace_elem..|].
  intros r Hin. trace_cases.
Qed.

(** ** C2: the oxidation-range dictionary *)

(** [--oxi_range As -3 5 --oxi_range As -1 1]: line 76 assigns to the key
    [As] twice, and the enumerator receives [{As: (-1, 1)}]. *)
Lemma repeated_element_keeps_last_range :
  ¬ every_triple_has_its_entry Sample.world
      {| mpid := Some "mp-149"; mapi_key := None; nmax := 128;
         oxi_range := Some [("As", "-3", "5"); ("As", "-1", "1")];
         root_fldr := None |}.
Proof.
  intros Hclaim.
  destruct (Hclaim _ (Ref 5) {[ "As" := (-1, 1) ]} 128 (Return (Ref 7))
              "As" "-3" "5" eq_refl)
    as (lo & hi & Hlo & Hhi & Hd).
  - apply list_elem_of_In. vm_compute.
    repeat (first [left; reflexivity | right]).
  - apply list_elem_of_here.
  - vm_compute in Hlo, Hhi, Hd. by simplify_eq.
Qed.

(** C2, amended.  With an identifier given and at least one [--oxi_range]
    triple, the second argument of every call of the enumerator is the
    dictionary the loop built, passed as it is: its keys are the elements
    the triples name, and an element is mapped to the pair of integers
    [(int(low), int(high))] of the last triple that names it.  The
    enumerator is called as soon as the dielectric files are written,
    provided every bound converts. *)
Theorem oxi_range_dict_passed (w : World) (args : Namespace)
    (triples : list OxiTriple) :
  truthy_str (mpid args) = true →
  oxi_range args = Some triples →
  triples ≠ [] →
  let tr := trace_of (generate_input_files w args) in
  (∀ s oxi n r, E_ChargedDefectsStructures s oxi n r ∈ tr →
     ∃ d, oxi = Some d
          ∧ run (build_oxi_range_dict w triples) = ([], Return d)
          ∧ (∀ before el low high after,
               triples = before ++ (el, low, high) :: after →
               (∀ t, t ∈ after → t.1.1 ≠ el) →
               ∃ lo hi, int w low = Return lo ∧ int w high = Return hi
                        ∧ d !! el = Some (lo, hi))
          ∧ (∀ el, is_Some (d !! el) → ∃ low high, (el, low, high) ∈ triples))
  ∧ (∀ prim, E_make_vasp_dielectric_files prim (Return tt) ∈ tr →
       (∀ el low high, (el, low, high) ∈ triples →
          ∃ lo hi, int w low = Return lo ∧ int w high = Return hi) →
       ∃ conv d r, E_ChargedDefectsStructures conv (Some d) (nmax args) r ∈ tr).
Proof.
  intros (c & id & Hid)%truthy_str_Some Hoxi Hne tr. subst tr.
  assert (∀ d, oxi_dict_from w triples ∅ = Return d →
            run (build_oxi_range_dict w triples) = ([], Return d)
            ∧ (∀ before el low high after,
                 triples = before ++ (el, low, high) :: after →
                 (∀ t, t ∈ after → t.1.1 ≠ el) →
                 ∃ lo hi, int w low = Return lo ∧ int w high = Return hi
                          ∧ d !! el = Some (lo, hi))
            ∧ (∀ el, is_Some (d !! el) →
                 ∃ low high, (el, low, high) ∈ triples)) as Hdict.
  { intros d Hd. split_and!.
    - unfold run. by rewrite build_oxi_range_dict_pure, Hd.
    - intros before el low high after -> Hlast.
      by apply (oxi_dict_from_last w before after ∅).
    - intros el Hel.
      destruct (oxi_dict_from_keys w _ _ _ el Hd Hel) as [Hempty|]; [|done].
      rewrite lookup_empty in Hempty. by destruct Hempty. }
  pose proof (oxi_dict_from_returns w triples ∅) as Hreturns.
  revert Hdict Hreturns.
  script_name (generate_input_files w args) tr out.
  unfold run, generate_input_files. rewrite Hid, Hoxi, fetch_prim_struct_eq.
  generalize (MPRester_argument (mapi_key args)); intros key.
  destruct triples as [|t l]; [done|].
  generalize (t :: l). intros triples.
  script_run; intros Hdict Hreturns.
  all: split; [intros s oxi n r Hin|intros prim Hin Hall]; trace_cases.
  all: try (eexists; split; [reflexivity|]; by apply Hdict).
  all: try trace_elem.
  destruct (Hreturns Hall) as [d Hd]. congruence.
Qed.

Lemma oxi_range_dict_passed_witness :
  let args := {| mpid := Some "mp-149"; mapi_key := None; nmax := 128;
                 oxi_range := Some [("As", "-3", "5"); ("Ga", "+1", "3");
                                    ("As", "-1", "1")];
                 root_fldr := None |} in
  ∃ conv d r,
    E_ChargedDefectsStructures conv (Some d) 128 r
    ∈ trace_of (generate_input_files Sample.world args).
Proof.
  intros args.
  destruct (oxi_range_dict_passed Sample.world args _ eq_refl eq_refl)
    as [_ Hcalled]; [done|].
  apply (Hcalled (Ref 2)).
  - trace_compute. trace_elem.
  - intros el low high Hin. trace_cases; by eexists _, _.
Defined.

(** The example of the specification, [--oxi_range El -3 5], and a repeated
    element. *)
Example oxi_range_El :
  run (build_oxi_range_dict Sample.world [("El", "-3", "5")])
  = ([], Return {[ "El" := (-3, 5) ]}).
Proof. vm_compute. reflexivity. Qed.

Example oxi_range_As_twice :
  run (build_oxi_range_dict Sample.world
         [("As", "-3", "5"); ("Ga", "+1", "3"); ("As", "-1", "1")])
  = ([], Return {[ "As" := (-1, 1); "Ga" := (1, 3) ]}).
Proof. vm_compute. reflexivity. Qed.

(** ** C9: the structure fetched by [parse_vasp_output] is not used *)

(** C9.  [PostProcess] is called with [(root_fldr, mpid, mapi_key)] and with
    nothing that comes from the fetch: take two worlds, which may answer the
    fetch (and anything else) differently; if both runs leave the [with]
    block normally, both make the same single call of [PostProcess]. *)
Theorem PostProcess_ignores_fetched_structure (w1 w2 : World)
    (args : Namespace) :
  let tr1 := trace_of (parse_vasp_output w1 args) in
  let tr2 := trace_of (parse_vasp_output w2 args) in
  (∃ mgr, E_exit mgr None (Return tt) ∈ tr1) →
  (∃ mgr, E_exit mgr None (Return tt) ∈ tr2) →
  PostProcess_calls tr1 = PostProcess_calls tr2
  ∧ ∃ id, mpid args = Some id
          ∧ PostProcess_calls tr1 = [(root_fldr args, id, mapi_key args)].
Proof.
  intros tr1 tr2.
  assert (∀ w, (∃ mgr, E_exit mgr None (Return tt)
                         ∈ trace_of (parse_vasp_output w args)) →
            ∃ id, mpid args = Some id
                  ∧ PostProcess_calls (trace_of (parse_vasp_output w args))
                    = [(root_fldr args, id, mapi_key args)]) as Hcalls.
  { intros w.
    script_name (parse_vasp_output w args) tr out.
    unfold run, parse_vasp_output.
    destruct (mpid args) as [[|c id]|].
    1,3: intros [= <- <-] [mgr Hin]; trace_cases.
    rewrite fetch_prim_struct_eq.
    generalize (MPRester_argument (mapi_key args)); intros key.
    script_run; intros [mgr Hin]; trace_cases; by eexists. }
  intros Hleft1 Hleft2. subst tr1 tr2.
  destruct (Hcalls w1 Hleft1) as (id1 & Hid1 & ->).
  destruct (Hcalls w2 Hleft2) as (id2 & Hid2 & ->).
  split; [congruence|by exists id1].
Qed.

Lemma PostProcess_ignores_fetched_structure_witness :
  let args := {| mpid := Some "mp-149"; mapi_key := Some "k"; nmax := 128;
                 oxi_range := None; root_fldr := Some "results" |} in
  let w1 := Sample.world_fetching (λ _ _ _, Return (Ref 11%nat)) in
  let w2 := Sample.world_fetching (λ _ _ _, Return (Ref 22%nat)) in
  PostProcess_calls (trace_of (parse_vasp_output w1 args))
  = PostProcess_calls (trace_of (parse_vasp_output w2 args))
  ∧ ∃ id, mpid args = Some id
          ∧ PostProcess_calls (trace_of (parse_vasp_output w1 args))
            = [(root_fldr args, id, mapi_key args)].
Proof.
  intros args w1 w2.
  apply (PostProcess_ignores_fetched_structure w1 w2 args).
  - exists (Ref 0%nat). trace_compute. trace_elem.
  - exists (Ref 0%nat). trace_compute. trace_elem.
Defined.

(** The two runs of the witness do fetch different structures. *)
Example fetched_structures_differ :
  let args := {| mpid := Some "mp-149"; mapi_key := Some "k"; nmax := 128;
                 oxi_range := None; root_fldr := Some "results" |} in
  E_get_structure_by_material_id (Ref 0) "mp-149" (Return (Ref 11))
    ∈ trace_of (parse_vasp_output
                  (Sample.world_fetching (λ _ _ _, Return (Ref 11%nat))) args)
  ∧ E_get_structure_by_material_id (Ref 0) "mp-149" (Return (Ref 22))
      ∈ trace_of (parse_vasp_output
                    (Sample.world_fetching (λ _ _ _, Return (Ref 22%nat))) args).
Proof. intros args. split; trace_compute; trace_elem. Qed.

(** ** C7: failures are not handled *)

(** [main] runs the handler the sub-command names, on the parsed arguments. *)
Lemma main_dispatch (w : World) (argv : list string) (func : Func)
    (args : Namespace) :
  parse_args w argv = Return (func, args) →
  run (main w argv)
  = run (match func with
         | func_generate_input_files => generate_input_files w args
         | func_parse_vasp_output => parse_vasp_output w args
         end).
Proof.
  intros Hargs. unfold run, main, pure, mbind, M_bind. by rewrite Hargs.
Qed.

(** A run that stops at the command line has made no call. *)
Lemma main_parser_exit (w : World) (argv : list string) (e : Exn) :
  parse_args w argv = Raise e → run (main w argv) = ([], Raise e).
Proof.
  intros Hargs. unfold run, main, pure, mbind, M_bind. by rewrite Hargs.
Qed.

(** Nothing is caught in a handler: an exception of a library call ends the
    handler, with that exception or with the one of [__exit__], and so does
    a bound that [int] rejects. *)
Lemma handlers_propagate (w : World) (args : Namespace) :
  let propagates (m : M unit) :=
    ∀ ev e, ev ∈ trace_of m → raised_by ev = Some e →
      outcome_of m = Raise e
      ∨ ∃ mgr e', E_exit mgr (Some e) (Raise e') ∈ trace_of m
                  ∧ outcome_of m = Raise e' in
  propagates (generate_input_files w args)
  ∧ propagates (parse_vasp_output w args)
  ∧ (∀ triples el low high e,
       truthy_str (mpid args) = true →
       oxi_range args = Some triples →
       (el, low, high) ∈ triples →
       int w low = Raise e ∨ int w high = Raise e →
       ∃ e', outcome_of (generate_input_files w args) = Raise e')
  ∧ (∀ triples e,
       truthy_str (mpid args) = true →
       oxi_range args = Some triples →
       run (build_oxi_range_dict w triples) = ([], Raise e) →
       (∀ ev, ev ∈ trace_of (generate_input_files w args) →
          raised_by ev = None) →
       outcome_of (generate_input_files w args) = Raise e
       ∧ ∃ el low high, (el, low, high) ∈ triples
                        ∧ (int w low = Raise e ∨ int w high = Raise e))
  ∧ (∀ argv func ev e,
       parse_args w argv = Return (func, args) →
       ev ∈ trace_of (main w argv) → raised_by ev = Some e →
       ∃ e', outcome_of (main w argv) = Raise e')
  ∧ (∀ class message, exit_status (Raise (Exception class message)) = 1).
Proof.
  intros propagates.
  assert (propagates (generate_input_files w args)) as Hgen.
  { subst propagates. cbv beta.
    script_name (generate_input_files w args) tr out.
    unfold run, generate_input_files.
    destruct (mpid args) as [[|c id]|].
    1,3: intros [= <- <-] ev e Hin Hraised; trace_cases.
    rewrite fetch_prim_struct_eq.
    generalize (MPRester_argument (mapi_key args)); intros key.
    destruct (oxi_range args) as [[|t l]|]; script_run.
    all: intros ev e' Hin Hraised; trace_cases.
    all: first [by left | right; trace_elem]. }
  assert (propagates (parse_vasp_output w args)) as Hparse.
  { subst propagates. cbv beta.
    script_name (parse_vasp_output w args) tr out.
    unfold run, parse_vasp_output.
    destruct (mpid args) as [[|c id]|].
    1,3: intros [= <- <-] ev e Hin Hraised; trace_cases.
    rewrite fetch_prim_struct_eq.
    generalize (MPRester_argument (mapi_key args)); intros key.
    script_run.
    all: intros ev e' Hin Hraised; trace_cases.
    all: first [by left | right; trace_elem]. }
  split_and!; [done..| | | |done].
  - intros triples el low high e (c & id & Hid)%truthy_str_Some Hoxi Hin Hint.
    assert (∀ d, oxi_dict_from w triples ∅ ≠ Return d) as Hloop.
    { intros d Hd.
      destruct (oxi_dict_from_converted w _ _ _ _ _ _ Hd Hin)
        as (lo & hi & Hlo & Hhi).
      destruct Hint; congruence. }
    revert Hloop.
    script_name (generate_input_files w args) tr out.
    unfold run, generate_input_files. rewrite Hid, Hoxi, fetch_prim_struct_eq.
    generalize (MPRester_argument (mapi_key args)); intros key.
    destruct triples as [|t l]; [by apply elem_of_nil in Hin|].
    clear Hin. generalize (t :: l). intros triples.
    script_run; intros Hloop; try by eexists.
    all: by destruct (Hloop _ eq_refl).
  - intros triples e (c & id & Hid)%truthy_str_Some Hoxi.
    unfold run at 1. rewrite build_oxi_range_dict_pure. intros [= Hloop] Hquiet.
    split; [|by apply (oxi_dict_from_raises w triples ∅)].
    revert Hloop Hquiet.
    script_name (generate_input_files w args) tr out.
    unfold run, generate_input_files. rewrite Hid, Hoxi, fetch_prim_struct_eq.
    generalize (MPRester_argument (mapi_key args)); intros key.
    destruct triples as [|t l]; [done|].
    generalize (t :: l). intros triples.
    script_run; intros Hloop Hquiet; try congruence.
    all: apply Forall_forall in Hquiet.
    all: repeat match goal with
           | H : Forall _ (_ :: _) |- _ => apply Forall_cons in H as [? H]
           end.
    all: done.
  - intros argv func ev e Hargs.
    unfold trace_of, outcome_of. rewrite (main_dispatch _ _ _ _ Hargs).
    intros Hin Hraised.
    destruct func.
    + destruct (Hgen ev e Hin Hraised) as [?|(? & ? & ? & ?)]; by eexists.
    + destruct (Hparse ev e Hin Hraised) as [?|(? & ? & ? & ?)]; by eexists.
Qed.

(** Two failures, run whole: the database is down, and a bound is not a
    number. *)
Example database_down :
  run (main Sample.offline ["parse_vasp_output"; "--mpid"; "mp-149"])
  = ([E_MPRester None (Return (Ref 0));
      E_enter (Ref 0) (Return (Ref 0));
      E_get_structure_by_material_id (Ref 0) "mp-149"
        (Raise (Exception "MPRestError" "REST query failed"));
      E_exit (Ref 0) (Some (Exception "MPRestError" "REST query failed"))
        (Return tt)],
     Raise (Exception "MPRestError" "REST query failed")).
Proof. vm_compute. reflexivity. Qed.

Example malformed_bound :
  outcome_of
    (main Sample.world
       ["generate_input_files"; "--mpid"; "mp-149";
        "--oxi_range"; "As"; "-3"; "x1"])
  = Raise (Exception "ValueError"
             "invalid literal for int() with base 10: 'x1'").
Proof. vm_compute. reflexivity. Qed.

(** ** The command line: C5 and C8 *)

Section Command_line.

Variable w : World.

(** When every action leaves a field alone except on its own option, the
    field is the initial one, or what the last occurrence of the option set. *)
Lemma apply_options_last {F : Type}
    (action : Namespace → string * list string → Result Namespace)
    (field : Namespace → F) (opt : string) (P : list string → F → Prop) :
  (∀ ns occ ns', action ns occ = Return ns' →
     (occ.1 ≠ opt → field ns' = field ns)
     ∧ (occ.1 = opt → P occ.2 (field ns'))) →
  ∀ occs ns ns', apply_options action occs ns = Return ns' →
    (Forall (λ occ, occ.1 ≠ opt) occs ∧ field ns' = field ns)
    ∨ (∃ before values after,
         occs = before ++ (opt, values) :: after
         ∧ Forall (λ occ, occ.1 ≠ opt) after
         ∧ P values (field ns')).
Proof.
  intros Haction occs.
  induction occs as [|occ occs IH]; intros ns ns' Hrun.
  - injection Hrun as <-. by left.
  - cbn in Hrun.
    destruct (action ns occ) as [ns1|] eqn:Hocc; [|done].
    destruct (Haction _ _ _ Hocc) as [Hother Hopt].
    destruct (IH _ _ Hrun) as [[Hnone Heq]|(before & values & after & -> & ? & ?)].
    + destruct (decide (occ.1 = opt)) as [Hhit|Hmiss].
      * right. exists [], occ.2, occs. split_and!; [|done|].
        -- destruct occ as [o vs]. cbn in Hhit. by subst o.
        -- rewrite Heq. by apply Hopt.
      * left. split; [by constructor|]. rewrite Heq. by apply Hother.
    + right. by exists (occ :: before), values, after.
Qed.

(** [--mpid] in either sub-parser: one argument, stored in lower case. *)
Lemma parser_input_files_mpid (ns ns' : Namespace) (occ : string * list string) :
  parser_input_files w ns occ = Return ns' →
  (occ.1 ≠ "--mpid" → mpid ns' = mpid ns)
  ∧ (occ.1 = "--mpid" → ∃ v, occ.2 = [v] ∧ mpid ns' = Some (str_lower v)).
Proof.
  destruct occ as [opt values]. unfold parser_input_files, parser_error.
  repeat case_decide; intros Hocc.
  all: repeat match goal with
         | H : context [match ?x with _ => _ end] |- _ => destruct x
         end.
  all: simplify_eq/=.
  all: split; [done|]; intros; simplify_eq; by eexists.
Qed.

Lemma parser_vasp_output_mpid (ns ns' : Namespace) (occ : string * list string) :
  parser_vasp_output ns occ = Return ns' →
  (occ.1 ≠ "--mpid" → mpid ns' = mpid ns)
  ∧ (occ.1 = "--mpid" → ∃ v, occ.2 = [v] ∧ mpid ns' = Some (str_lower v)).
Proof.
  destruct occ as [opt values]. unfold parser_vasp_output, parser_error.
  repeat case_decide; intros Hocc.
  all: repeat match goal with
         | H : context [match ?x with _ => _ end] |- _ => destruct x
         end.
  all: simplify_eq/=.
  all: split; [done|]; intros; simplify_eq; by eexists.
Qed.

(** [--nmax]: one argument, stored as the integer [int] reads. *)
Lemma parser_input_files_nmax (ns ns' : Namespace) (occ : string * list string) :
  parser_input_files w ns occ = Return ns' →
  (occ.1 ≠ "--nmax" → nmax ns' = nmax ns)
  ∧ (occ.1 = "--nmax" → ∃ v, occ.2 = [v] ∧ int w v = Return (nmax ns')).
Proof.
  destruct occ as [opt values]. unfold parser_input_files, parser_error.
  repeat case_decide; intros Hocc.
  all: repeat match goal with
         | H : context [match ?x with _ => _ end] |- _ => destruct x eqn:?
         end.
  all: simplify_eq/=.
  all: split; [done|]; intros; simplify_eq; by eexists.
Qed.

End Command_line.

(** The field after the last occurrence of its option, and without one. *)
Lemma apply_options_set {F : Type}
    (action : Namespace → string * list string → Result Namespace)
    (field : Namespace → F) (opt : string) (P : list string → F → Prop) :
  (∀ ns occ ns', action ns occ = Return ns' →
     (occ.1 ≠ opt → field ns' = field ns)
     ∧ (occ.1 = opt → P occ.2 (field ns'))) →
  ∀ occs ns ns', apply_options action occs ns = Return ns' →
    (Forall (λ occ, occ.1 ≠ opt) occs → field ns' = field ns)
    ∧ (∀ before values after,
         occs = before ++ (opt, values) :: after →
         Forall (λ occ, occ.1 ≠ opt) after →
         P values (field ns')).
Proof.
  intros Haction occs ns ns' Hrun.
  destruct (apply_options_last action field opt P Haction _ _ _ Hrun)
    as [[Hnone Heq]|(before & values & after & -> & Hafter & HP)].
  - split; [done|].
    intros before values after -> _.
    apply Forall_app in Hnone as [_ Hnone].
    apply Forall_cons in Hnone as [Hnone _]. done.
  - split.
    + intros Hnone.
      apply Forall_app in Hnone as [_ Hnone].
      apply Forall_cons in Hnone as [Hnone _]. done.
    + intros before' values' after' Heq Hafter'.
      assert (values' = values) as ->; [|done].
      clear -Heq Hafter Hafter'.
      revert before' Heq.
      induction before as [|occ before IH]; intros [|occ' before'] Heq;
        simplify_eq/=; try done.
      * apply Forall_app in Hafter as [_ Hafter].
        apply Forall_cons in Hafter as [Hafter _]. done.
      * apply Forall_app in Hafter' as [_ Hafter'].
        apply Forall_cons in Hafter' as [Hafter' _]. done.
      * by apply (IH before').
Qed.






(** The command line of the witness, run whole. *)
Example main_lowercases_mpid :
  run (main Sample.world
         ["parse_vasp_output"; "--mpid"; "mp-1"; "--dir"; "out";
          "--mpid"; "MP-149"])
  = ([E_MPRester None (Return (Ref 0));
      E_enter (Ref 0) (Return (Ref 0));
      E_get_structure_by_material_id (Ref 0) "mp-149" (Return (Ref 2));
      E_exit (Ref 0) None (Return tt);
      E_PostProcess (Some "out") "mp-149" None (Return (Ref 4));
      E_parse_defect_calculations (Ref 4) (Return tt)],
     Return tt).
Proof. vm_compute. reflexivity. Qed.

(** [nmax] as parsed, and as the handler passes it on. *)
Lemma nmax_parsed_and_forwarded (w : World) (args : Namespace) :
  (∀ argv occs func,
     scan w argv = Return ("generate_input_files", occs) →
     parse_args w argv = Return (func, args) →
     (Forall (λ occ, occ.1 ≠ "--nmax") occs → nmax args = 128)
     ∧ (∀ before v after,
          occs = before ++ ("--nmax", [v]) :: after →
          Forall (λ occ, occ.1 ≠ "--nmax") after →
          int w v = Return (nmax args)))
  ∧ (∀ s oxi n r,
       E_ChargedDefectsStructures s oxi n r
         ∈ trace_of (generate_input_files w args) →
       n = nmax args
       ∧ (is_Some oxi ↔ truthy_list (oxi_range args) = true))
  ∧ (truthy_str (mpid args) = true →
     outcome_of (generate_input_files w args) = Return tt →
     ∃ s oxi r,
       E_ChargedDefectsStructures s oxi (nmax args) r
         ∈ trace_of (generate_input_files w args)).
Proof.
  split_and!.
  - intros argv occs func Hscan Hargs.
    unfold parse_args in Hargs. rewrite Hscan in Hargs.
    rewrite decide_True in Hargs by done.
    destruct (apply_options _ _ _) as [ns|] eqn:Hrun; [|done].
    injection Hargs as _ ->.
    destruct (apply_options_set (parser_input_files w) nmax "--nmax"
                (λ values n, ∃ v, values = [v] ∧ int w v = Return n)
                (λ ns occ ns', parser_input_files_nmax w ns ns' occ)
                _ _ _ Hrun) as [Hdefault Hgiven].
    split; [done|].
    intros before v after Hoccs Hafter.
    destruct (Hgiven _ _ _ Hoccs Hafter) as (v' & [= <-] & Hint). done.
  - script_name (generate_input_files w args) tr out.
    unfold run, generate_input_files.
    destruct (mpid args) as [[|c id]|].
    1,3: intros [= <- <-] s oxi n r Hin; trace_cases.
    rewrite fetch_prim_struct_eq.
    generalize (MPRester_argument (mapi_key args)); intros key.
    destruct (oxi_range args) as [[|t l]|]; script_run.
    all: intros s oxi n r Hin; trace_cases.
    all: split; [done|]; split; try done.
    all: by intros [? [=]].
  - intros (c & id & Hid)%truthy_str_Some.
    script_name (generate_input_files w args) tr out.
    unfold run, generate_input_files. rewrite Hid, fetch_prim_struct_eq.
    generalize (MPRester_argument (mapi_key args)); intros key.
    destruct (oxi_range args) as [[|t l]|]; script_run.
    all: intros Hout; try discriminate Hout; trace_elem.
Qed.

(** Command lines without and with [--nmax], run whole. *)
Example main_default_nmax :
  E_ChargedDefectsStructures (Ref 5) None 128 (Return (Ref 7))
  ∈ trace_of (main Sample.world ["generate_input_files"; "--mpid"; "MP-149"]).
Proof. trace_compute. trace_elem. Qed.

Example main_given_nmax :
  E_ChargedDefectsStructures (Ref 5) (Some {[ "As" := (-3, 5) ]}) 64
    (Return (Ref 7))
  ∈ trace_of (main Sample.world
                ["generate_input_files"; "--mpid"; "MP-149"; "--nmax"; "64";
                 "--oxi_range"; "As"; "-3"; "5"]).
Proof.
  apply list_elem_of_In. vm_compute.
  repeat (first [left; reflexivity | right]).
Qed.

Lemma dielectric_files_from_primitive_cell_witness :
  let args := {| mpid := Some "mp-149"; mapi_key := None; nmax := 128;
                 oxi_range := None; root_fldr := None |} in
  ∃ mp id prim r,
    E_get_structure_by_material_id mp id (Return prim)
      ∈ trace_of (generate_input_files Sample.world args)
    ∧ E_make_vasp_dielectric_files prim r
        ∈ trace_of (generate_input_files Sample.world args).
Proof.
  intros args.
  destruct (dielectric_files_from_primitive_cell Sample.world args)
    as (_ & _ & _ & Hwritten).
  apply (Hwritten (Ref 4%nat) (Ref 5%nat)).
  trace_compute. trace_elem.
Defined.

(** * Further properties of the handlers *)

(** ** The [with] block (lines 61-66 and 109-114) *)

(** X1.  In either handler the client is closed whenever it was entered:
    the fetch is made on what [__enter__] returned, [__exit__] is called on
    the object the constructor returned and is told the exception of the
    fetch, if any; and [__exit__] is called on nothing that was not built
    and entered. *)
Theorem with_block_closes_client (w : World) (args : Namespace) :
  let closes (m : M unit) :=
    let tr := trace_of m in
    (∀ mgr mp, E_enter mgr (Return mp) ∈ tr →
       ∃ id fetched r,
         E_get_structure_by_material_id mp id fetched ∈ tr
         ∧ E_exit mgr (exception_of fetched) r ∈ tr)
    ∧ (∀ mgr exc r, E_exit mgr exc r ∈ tr →
         ∃ key mp, E_MPRester key (Return mgr) ∈ tr
                   ∧ E_enter mgr (Return mp) ∈ tr)
    ∧ (∀ mp id r, E_get_structure_by_material_id mp id r ∈ tr →
         ∃ mgr, E_enter mgr (Return mp) ∈ tr) in
  closes (generate_input_files w args) ∧ closes (parse_vasp_output w args).
Proof.
  intros closes. subst closes. cbv beta zeta. split.
  - script_name (generate_input_files w args) tr out.
    unfold run, generate_input_files.
    destruct (mpid args) as [[|c id]|].
    1,3: intros [= <- <-]; split_and!; intros; trace_cases.
    rewrite fetch_prim_struct_eq.
    generalize (MPRester_argument (mapi_key args)); intros key.
    destruct (oxi_range args) as [[|t l]|]; script_run.
    all: split_and!; intros; trace_cases; trace_elem.
  - script_name (parse_vasp_output w args) tr out.
    unfold run, parse_vasp_output.
    destruct (mpid args) as [[|c id]|].
    1,3: intros [= <- <-]; split_and!; intros; trace_cases.
    rewrite fetch_prim_struct_eq.
    generalize (MPRester_argument (mapi_key args)); intros key.
    script_run.
    all: split_and!; intros; trace_cases; trace_elem.
Qed.

Lemma with_block_closes_client_witness :
  let args := {| mpid := Some "mp-149"; mapi_key := None; nmax := 128;
                 oxi_range := None; root_fldr := None |} in
  ∃ id fetched r,
    E_get_structure_by_material_id (Ref 0) id fetched
      ∈ trace_of (parse_vasp_output Sample.offline args)
    ∧ E_exit (Ref 0) (exception_of fetched) r
        ∈ trace_of (parse_vasp_output Sample.offline args).
Proof.
  intros args.
  destruct (with_block_closes_client Sample.offline args)
    as [_ (Hclosed & _ & _)].
  apply Hclosed. trace_compute. trace_elem.
Defined.

(** ** The order of the calls *)

(** X2.  With an identifier given, the calls of [generate_input_files] come
    in the order of the text, from the first one on and without a gap or a
    repetition: the trace of a run is an initial part of the twelve calls
    of lines 61-83. *)
Theorem generate_input_files_calls_in_order (w : World) (args : Namespace) :
  truthy_str (mpid args) = true →
  let tr := trace_of (generate_input_files w args) in
  generate_input_files_position <$> tr = seq 0 (length tr)
  ∧ (1 ≤ length tr ≤ 12)%nat.
Proof.
  intros (c & id & Hid)%truthy_str_Some tr. subst tr.
  script_name (generate_input_files w args) tr out.
  unfold run, generate_input_files. rewrite Hid, fetch_prim_struct_eq.
  generalize (MPRester_argument (mapi_key args)); intros key.
  destruct (oxi_range args) as [[|t l]|]; script_run.
  all: split; [reflexivity|cbn; lia].
Qed.

Lemma generate_input_files_calls_in_order_witness :
  let args := {| mpid := Some "mp-149"; mapi_key := None; nmax := 128;
                 oxi_range := Some [("As", "-3", "x1")]; root_fldr := None |} in
  let tr := trace_of (generate_input_files Sample.world args) in
  generate_input_files_position <$> tr = seq 0 (length tr)
  ∧ (1 ≤ length tr ≤ 12)%nat.
Proof.
  intros args.
  apply (generate_input_files_calls_in_order Sample.world args).
  reflexivity.
Defined.

(** X3.  The same for [parse_vasp_output] and the six calls of lines
    109-116. *)
Theorem parse_vasp_output_calls_in_order (w : World) (args : Namespace) :
  truthy_str (mpid args) = true →
  let tr := trace_of (parse_vasp_output w args) in
  parse_vasp_output_position <$> tr = seq 0 (length tr)
  ∧ (1 ≤ length tr ≤ 6)%nat.
Proof.
  intros (c & id & Hid)%truthy_str_Some tr. subst tr.
  script_name (parse_vasp_output w args) tr out.
  unfold run, parse_vasp_output. rewrite Hid, fetch_prim_struct_eq.
  generalize (MPRester_argument (mapi_key args)); intros key.
  script_run.
  all: split; [reflexivity|cbn; lia].
Qed.

Lemma parse_vasp_output_calls_in_order_witness :
  let args := {| mpid := Some "mp-149"; mapi_key := None; nmax := 128;
                 oxi_range := None; root_fldr := Some "out" |} in
  let tr := trace_of (parse_vasp_output Sample.offline args) in
  parse_vasp_output_position <$> tr = seq 0 (length tr)
  ∧ (1 ≤ length tr ≤ 6)%nat.
Proof.
  intros args.
  apply (parse_vasp_output_calls_in_order Sample.offline args).
  reflexivity.
Defined.

(** X4.  A handler stops at the first call that raises: the call is the
    last of the trace, or it is the fetch and the only call after it is the
    [__exit__] of the [with] block, which is told its exception. *)
Theorem no_call_after_a_failure (w : World) (args : Namespace) :
  let stops (m : M unit) :=
    let tr := trace_of m in
    ∀ i ev e, tr !! i = Some ev → raised_by ev = Some e →
      S i = length tr
      ∨ (S (S i) = length tr
         ∧ (∃ mp id, ev = E_get_structure_by_material_id mp id (Raise e))
         ∧ ∃ mgr r, tr !! S i = Some (E_exit mgr (Some e) r)) in
  stops (generate_input_files w args) ∧ stops (parse_vasp_output w args).
Proof.
  intros stops. subst stops. cbv beta zeta. split.
  - script_name (generate_input_files w args) tr out.
    unfold run, generate_input_files.
    destruct (mpid args) as [[|c id]|].
    1,3: intros [= <- <-] [|[|i]] ev e Hev Hraised; simplify_eq/=.
    rewrite fetch_prim_struct_eq.
    generalize (MPRester_argument (mapi_key args)); intros key.
    destruct (oxi_range args) as [[|t l]|]; script_run.
    all: intros i ev e' Hev Hraised.
    all: repeat (destruct i as [|i]; simplify_eq/=; try (by left)).
    all: right; split_and!; [done|by eexists _, _|by eexists _, _].
  - script_name (parse_vasp_output w args) tr out.
    unfold run, parse_vasp_output.
    destruct (mpid args) as [[|c id]|].
    1,3: intros [= <- <-] [|[|i]] ev e Hev Hraised; simplify_eq/=.
    rewrite fetch_prim_struct_eq.
    generalize (MPRester_argument (mapi_key args)); intros key.
    script_run.
    all: intros i ev e' Hev Hraised.
    all: repeat (destruct i as [|i]; simplify_eq/=; try (by left)).
    all: right; split_and!; [done|by eexists _, _|by eexists _, _].
Qed.

Lemma no_call_after_a_failure_witness :
  let args := {| mpid := Some "mp-149"; mapi_key := None; nmax := 128;
                 oxi_range := None; root_fldr := None |} in
  let tr := trace_of (generate_input_files Sample.offline args) in
  let down := Exception "MPRestError" "REST query failed" in
  3%nat = length tr
  ∨ (4%nat = length tr
     ∧ (∃ mp id,
          E_get_structure_by_material_id (Ref 0) "mp-149" (Raise down)
          = E_get_structure_by_material_id mp id (Raise down))
     ∧ ∃ mgr r, tr !! 3%nat = Some (E_exit mgr (Some down) r)).
Proof.
  intros args tr down.
  destruct (no_call_after_a_failure Sample.offline args) as [Hstops _].
  apply (Hstops 2%nat); reflexivity.
Defined.

(** ** [parse_vasp_output], whole *)

(** X6.  With an identifier given, [PostProcess] is built only after the
    fetch has returned and the client has been closed without an
    exception, although the structure is not passed on; it is built on the
    identifier that was fetched; and a run that returns is exactly the six
    calls of lines 109-116, the client built as lines 109-114 say and
    [PostProcess] given [mapi_key] as it is, [None] and the empty string
    included. *)
Theorem parse_vasp_output_run (w : World) (args : Namespace) :
  truthy_str (mpid args) = true →
  let tr := trace_of (parse_vasp_output w args) in
  (∀ root id key r, E_PostProcess root id key r ∈ tr →
     ∃ mgr mp prim,
       E_get_structure_by_material_id mp id (Return prim) ∈ tr
       ∧ E_exit mgr None (Return tt) ∈ tr)
  ∧ (∀ pp r, E_parse_defect_calculations pp r ∈ tr →
       ∃ root id key, E_PostProcess root id key (Return pp) ∈ tr)
  ∧ (outcome_of (parse_vasp_output w args) = Return tt →
     ∃ id mgr mp prim pp,
       mpid args = Some id
       ∧ tr = [E_MPRester (MPRester_argument (mapi_key args)) (Return mgr);
               E_enter mgr (Return mp);
               E_get_structure_by_material_id mp id (Return prim);
               E_exit mgr None (Return tt);
               E_PostProcess (root_fldr args) id (mapi_key args) (Return pp);
               E_parse_defect_calculations pp (Return tt)]).
Proof.
  intros (c & id & Hid)%truthy_str_Some tr. subst tr.
  script_name (parse_vasp_output w args) tr out.
  unfold run, parse_vasp_output. rewrite Hid, fetch_prim_struct_eq.
  generalize (MPRester_argument (mapi_key args)); intros key.
  script_run.
  all: split_and!; intros; trace_cases; trace_elem.
Qed.

Lemma parse_vasp_output_run_witness :
  let args := {| mpid := Some "mp-149"; mapi_key := Some ""; nmax := 128;
                 oxi_range := None; root_fldr := Some "out" |} in
  ∃ id mgr mp prim pp,
    mpid args = Some id
    ∧ trace_of (parse_vasp_output Sample.world args)
      = [E_MPRester None (Return mgr);
         E_enter mgr (Return mp);
         E_get_structure_by_material_id mp id (Return prim);
         E_exit mgr None (Return tt);
         E_PostProcess (Some "out") id (Some "") (Return pp);
         E_parse_defect_calculations pp (Return tt)].
Proof.
  intros args.
  apply (parse_vasp_output_run Sample.world args eq_refl).
  reflexivity.
Defined.

(** ** More on the loop of lines 74-77 *)

Section Oxi_range_dict_more.

Variable w : World.

Lemma oxi_dict_from_app (before after : list OxiTriple) (d0 : OxiDict) :
  oxi_dict_from w (before ++ after) d0
  = match oxi_dict_from w before d0 with
    | Return d => oxi_dict_from w after d
    | Raise e => Raise e
    end.
Proof.
  revert d0.
  induction before as [|[[el low] high] before IH]; intros d0; [done|].
  cbn. destruct (int w low); [|done]. by destruct (int w high).
Qed.

Lemma oxi_dict_from_converts (triples : list OxiTriple) (d0 : OxiDict) :
  Forall (converts w) triples ↔ ∃ d, oxi_dict_from w triples d0 = Return d.
Proof.
  split.
  - intros Hall. apply oxi_dict_from_returns.
    intros el low high Hin.
    by apply (proj1 (Forall_forall _ _) Hall (el, low, high)).
  - intros [d Hd]. apply Forall_forall. intros [[el low] high] Hin.
    by apply (oxi_dict_from_converted w _ _ _ _ _ _ Hd Hin).
Qed.

(** When no element is named twice, every triple decides its entry. *)
Lemma oxi_dict_from_NoDup (triples : list OxiTriple) (d0 d : OxiDict)
    (el low high : string) :
  NoDup ((λ t, t.1.1) <$> triples) →
  oxi_dict_from w triples d0 = Return d →
  (el, low, high) ∈ triples →
  ∃ lo hi, int w low = Return lo ∧ int w high = Return hi
           ∧ d !! el = Some (lo, hi).
Proof.
  intros Hnodup Hd (before & after & ->)%list_elem_of_split.
  apply (oxi_dict_from_last w before after d0 d); [done|].
  intros t Ht Hel.
  rewrite fmap_app, fmap_cons in Hnodup.
  apply NoDup_app in Hnodup as (_ & _ & Hnodup).
  apply NoDup_cons in Hnodup as [Hfresh _].
  apply Hfresh. cbn. rewrite <- Hel.
  by apply (list_elem_of_fmap_2 (λ t, t.1.1)).
Qed.

End Oxi_range_dict_more.

(** X7.  When the [--oxi_range] triples name pairwise different elements
    and the loop ends normally, every triple has its own entry: its element
    is mapped to the integers of its two bounds. *)
Theorem distinct_elements_all_entries (w : World) (triples : list OxiTriple)
    (d : OxiDict) :
  NoDup ((λ t, t.1.1) <$> triples) →
  run (build_oxi_range_dict w triples) = ([], Return d) →
  ∀ el low high, (el, low, high) ∈ triples →
    ∃ lo hi, int w low = Return lo ∧ int w high = Return hi
             ∧ d !! el = Some (lo, hi).
Proof.
  intros Hnodup. unfold run. rewrite build_oxi_range_dict_pure.
  intros [= Hd] el low high Hin.
  by apply (oxi_dict_from_NoDup w triples ∅).
Qed.

Lemma distinct_elements_all_entries_witness :
  ∃ lo hi, int Sample.world "+1" = Return lo ∧ int Sample.world "3" = Return hi
           ∧ ({[ "As" := (-3, 5); "Ga" := (1, 3) ]} : OxiDict) !! "Ga"
             = Some (lo, hi).
Proof.
  apply (distinct_elements_all_entries Sample.world
           [("As", "-3", "5"); ("Ga", "+1", "3")]).
  - compute_done.
  - vm_compute. reflexivity.
  - apply list_elem_of_further, list_elem_of_here.
Defined.

(** X8.  When the triples name pairwise different elements, the order of
    the [--oxi_range] options does not matter: a permutation of the triples
    gives the same dictionary. *)
Theorem distinct_elements_any_order (w : World)
    (triples triples' : list OxiTriple) (d : OxiDict) :
  NoDup ((λ t, t.1.1) <$> triples) →
  triples ≡ₚ triples' →
  run (build_oxi_range_dict w triples) = ([], Return d) →
  run (build_oxi_range_dict w triples') = ([], Return d).
Proof.
  intros Hnodup Hperm. unfold run. rewrite !build_oxi_range_dict_pure.
  intros [= Hd].
  assert (NoDup ((λ t, t.1.1) <$> triples')) as Hnodup'.
  { by rewrite <- Hperm. }
  destruct (proj1 (oxi_dict_from_converts w triples' ∅)) as [d' Hd'].
  { rewrite <- Hperm. apply (oxi_dict_from_converts w triples ∅). by exists d. }
  rewrite Hd'. do 2 f_equal. apply map_eq. intros el.
  destruct (decide (el ∈ (λ t, t.1.1) <$> triples')) as [Hin|Hout].
  - apply list_elem_of_fmap in Hin as ([[el' low] high] & -> & Hin). cbn.
    destruct (oxi_dict_from_NoDup w _ _ _ _ _ _ Hnodup' Hd' Hin)
      as (lo' & hi' & Hlo' & Hhi' & ->).
    rewrite <- Hperm in Hin.
    destruct (oxi_dict_from_NoDup w _ _ _ _ _ _ Hnodup Hd Hin)
      as (lo & hi & Hlo & Hhi & ->).
    congruence.
  - rewrite (oxi_dict_from_other w _ _ _ el Hd').
    + symmetry. apply (oxi_dict_from_other w _ _ _ el Hd).
      intros t Ht Hel. apply Hout. rewrite <- Hel.
      apply (list_elem_of_fmap_2 (λ t, t.1.1)). by rewrite <- Hperm.
    + intros t Ht Hel. apply Hout. rewrite <- Hel.
      by apply (list_elem_of_fmap_2 (λ t, t.1.1)).
Qed.

Lemma distinct_elements_any_order_witness :
  run (build_oxi_range_dict Sample.world
         [("Ga", "+1", "3"); ("As", "-3", "5")])
  = ([], Return {[ "As" := (-3, 5); "Ga" := (1, 3) ]}).
Proof.
  apply (distinct_elements_any_order Sample.world
           [("As", "-3", "5"); ("Ga", "+1", "3")]).
  - compute_done.
  - apply Permutation_swap.
  - vm_compute. reflexivity.
Defined.

(** X9.  The loop makes no library call, whatever the trace it starts from,
    and it stops at the first bound, in command-line order and the lower
    one before the upper one, that [int] rejects: it raises what [int]
    raised there, whatever comes after. *)
Theorem loop_raises_at_first_rejected_bound (w : World)
    (before after : list OxiTriple) (el low high : string) (e : Exn)
    (tr : Trace) :
  Forall (converts w) before →
  int w low = Raise e
  ∨ (∃ lo, int w low = Return lo) ∧ int w high = Raise e →
  build_oxi_range_dict w (before ++ (el, low, high) :: after) tr
  = (tr, Raise e).
Proof.
  intros Hbefore Hint. rewrite build_oxi_range_dict_pure. f_equal.
  rewrite oxi_dict_from_app.
  destruct (proj1 (oxi_dict_from_converts w before ∅) Hbefore) as [d ->].
  cbn. destruct Hint as [->|[[lo ->] ->]]; done.
Qed.

Lemma loop_raises_at_first_rejected_bound_witness :
  build_oxi_range_dict Sample.world
    ([("As", "-3", "5")] ++ ("Ga", "1", "x") :: [("In", "y", "3")])
    [E_print "so far"]
  = ([E_print "so far"],
     Raise (Exception "ValueError"
              "invalid literal for int() with base 10: 'x'")).
Proof.
  apply loop_raises_at_first_rejected_bound.
  - apply Forall_singleton. by exists (-3), 5.
  - right. split; [by exists 1|reflexivity].
Defined.

(** ** More on the command line (lines 147-171) *)

Section Command_line_more.

Variable w : World.

Ltac parser_cases :=
  repeat case_decide; intros;
  repeat match goal with
    | H : context [match ?x with _ => _ end] |- _ => destruct x eqn:?
    end;
  simplify_eq/=.

(** [--oxi_range]: three arguments, appended as one triple. *)
Lemma parser_input_files_oxi_range (ns ns' : Namespace)
    (occ : string * list string) :
  parser_input_files w ns occ = Return ns' →
  oxi_range ns'
  = match oxi_range_occurrences [occ] with
    | [] => oxi_range ns
    | new => Some (default [] (oxi_range ns) ++ new)
    end.
Proof.
  destruct occ as [opt values].
  unfold parser_input_files, parser_error, oxi_range_occurrences.
  cbn [mbind list_bind fst snd app].
  parser_cases; done.
Qed.

Lemma apply_options_oxi_range (occs : list (string * list string))
    (ns ns' : Namespace) :
  apply_options (parser_input_files w) occs ns = Return ns' →
  oxi_range ns'
  = match oxi_range_occurrences occs with
    | [] => oxi_range ns
    | new => Some (default [] (oxi_range ns) ++ new)
    end.
Proof.
  revert ns.
  induction occs as [|occ occs IH]; intros ns Hrun.
  - by injection Hrun as <-.
  - cbn in Hrun.
    destruct (parser_input_files w ns occ) as [ns1|] eqn:Hocc; [|done].
    rewrite (IH _ Hrun), (parser_input_files_oxi_range _ _ _ Hocc).
    assert (oxi_range_occurrences (occ :: occs)
            = oxi_range_occurrences [occ] ++ oxi_range_occurrences occs)
      as ->.
    { unfold oxi_range_occurrences. cbn [mbind list_bind].
      by rewrite app_nil_r. }
    destruct (oxi_range_occurrences [occ]) as [|t new];
      destruct (oxi_range_occurrences occs) as [|t' new']; cbn; try done.
    + by rewrite app_nil_r.
    + by rewrite <- app_assoc.
Qed.

(** [--mapi_key] in either sub-parser and [--dir]: one argument, stored as
    it is. *)
Lemma parser_input_files_mapi_key (ns : Namespace)
    (occ : string * list string) (ns' : Namespace) :
  parser_input_files w ns occ = Return ns' →
  (occ.1 ≠ "--mapi_key" → mapi_key ns' = mapi_key ns)
  ∧ (occ.1 = "--mapi_key" → ∃ v, occ.2 = [v] ∧ mapi_key ns' = Some v).
Proof.
  destruct occ as [opt values]. unfold parser_input_files, parser_error.
  parser_cases; split; try done; intros; simplify_eq; by eexists.
Qed.

Lemma parser_vasp_output_mapi_key (ns : Namespace)
    (occ : string * list string) (ns' : Namespace) :
  parser_vasp_output ns occ = Return ns' →
  (occ.1 ≠ "--mapi_key" → mapi_key ns' = mapi_key ns)
  ∧ (occ.1 = "--mapi_key" → ∃ v, occ.2 = [v] ∧ mapi_key ns' = Some v).
Proof.
  destruct occ as [opt values]. unfold parser_vasp_output, parser_error.
  parser_cases; split; try done; intros; simplify_eq; by eexists.
Qed.

Lemma parser_vasp_output_root_fldr (ns : Namespace)
    (occ : string * list string) (ns' : Namespace) :
  parser_vasp_output ns occ = Return ns' →
  (occ.1 ≠ "--dir" → root_fldr ns' = root_fldr ns)
  ∧ (occ.1 = "--dir" → ∃ v, occ.2 = [v] ∧ root_fldr ns' = Some v).
Proof.
  destruct occ as [opt values]. unfold parser_vasp_output, parser_error.
  parser_cases; split; try done; intros; simplify_eq; by eexists.
Qed.

(** No option of [generate_input_files] sets [root_fldr]. *)
Lemma parser_input_files_root_fldr (ns : Namespace)
    (occ : string * list string) (ns' : Namespace) :
  parser_input_files w ns occ = Return ns' → root_fldr ns' = root_fldr ns.
Proof.
  destruct occ as [opt values]. unfold parser_input_files, parser_error.
  parser_cases; done.
Qed.

Lemma apply_options_keeps {F : Type}
    (action : Namespace → string * list string → Result Namespace)
    (field : Namespace → F) :
  (∀ ns occ ns', action ns occ = Return ns' → field ns' = field ns) →
  ∀ occs ns ns', apply_options action occs ns = Return ns' →
    field ns' = field ns.
Proof.
  intros Haction occs.
  induction occs as [|occ occs IH]; intros ns ns' Hrun.
  - by injection Hrun as <-.
  - cbn [apply_options] in Hrun.
    destruct (action ns occ) as [ns1|] eqn:Hocc; [|done].
    rewrite (IH _ _ Hrun). by apply (Haction _ occ).
Qed.

(** A sub-parser that rejects an occurrence exits with status 0 or 2. *)
Lemma parser_input_files_exit (ns : Namespace) (occ : string * list string)
    (e : Exn) :
  parser_input_files w ns occ = Raise e → e = SystemExit 0 ∨ e = SystemExit 2.
Proof.
  destruct occ as [opt values]. unfold parser_input_files, parser_error.
  parser_cases; auto.
Qed.

Lemma apply_options_rejects (occs : list (string * list string))
    (ns : Namespace) (occ : string * list string) :
  occ ∈ occs →
  (∀ ns1, ∃ e, parser_input_files w ns1 occ = Raise e) →
  ∃ e, apply_options (parser_input_files w) occs ns = Raise e
       ∧ (e = SystemExit 0 ∨ e = SystemExit 2).
Proof.
  intros Hin Hbad. revert ns.
  induction occs as [|occ' occs IH]; intros ns.
  - by apply elem_of_nil in Hin.
  - cbn. destruct (parser_input_files w ns occ') as [ns1|e] eqn:Hocc.
    + apply elem_of_cons in Hin as [->|Hin]; [|by apply IH].
      destruct (Hbad ns) as [e He]. congruence.
    + exists e. split; [done|]. by apply (parser_input_files_exit ns occ').
Qed.

End Command_line_more.

Lemma str_lower_empty (s : string) : str_lower s = "" ↔ s = "".
Proof. by destruct s. Qed.

(** Either handler prints the banner, and does nothing else, exactly when
    the identifier is missing or empty. *)
Lemma handler_banner (w : World) (func : Func) (args : Namespace) :
  run (match func with
       | func_generate_input_files => generate_input_files w args
       | func_parse_vasp_output => parse_vasp_output w args
       end) = ([E_print banner], Return tt)
  ↔ truthy_str (mpid args) = false.
Proof.
  split.
  - destruct (truthy_str (mpid args)) eqn:Hmpid; [|done].
    apply truthy_str_Some in Hmpid as (c & id & Hid).
    destruct func.
    + unfold run, generate_input_files. rewrite Hid, fetch_prim_struct_eq.
      destruct (oxi_range args) as [[|t l]|]; script_unfold;
        repeat script_step; done.
    + unfold run, parse_vasp_output. rewrite Hid, fetch_prim_struct_eq.
      script_unfold; repeat script_step; done.
  - intros Hmpid. unfold run.
    destruct func; unfold generate_input_files, parse_vasp_output;
      by destruct (mpid args) as [[|c s]|].
Qed.

(** X10.  [action='append'] with [nargs=3]: the parsed [oxi_range] is the
    list of the triples of all [--oxi_range] options in command-line order,
    and [None], never the empty list, when there is none; so the test
    [if oxi_range] at line 73 tells exactly whether the option was given. *)
Theorem oxi_range_options_appended (w : World) (argv : list string)
    (occs : list (string * list string)) (func : Func) (args : Namespace) :
  scan w argv = Return ("generate_input_files", occs) →
  parse_args w argv = Return (func, args) →
  oxi_range args
  = match oxi_range_occurrences occs with
    | [] => None
    | triples => Some triples
    end
  ∧ oxi_range args ≠ Some [].
Proof.
  intros Hscan Hargs. unfold parse_args in Hargs. rewrite Hscan in Hargs.
  rewrite decide_True in Hargs by done.
  destruct (apply_options _ _ _) as [ns|] eqn:Hrun; [|done].
  injection Hargs as _ ->.
  rewrite (apply_options_oxi_range w _ _ _ Hrun).
  by destruct (oxi_range_occurrences occs).
Qed.

Lemma oxi_range_options_appended_witness :
  let argv := ["generate_input_files"; "--oxi_range"; "As"; "-3"; "5";
               "--mpid"; "mp-149"; "--oxi_range"; "Ga"; "1"; "3"] in
  let args := {| mpid := Some "mp-149"; mapi_key := None; nmax := 128;
                 oxi_range := Some [("As", "-3", "5"); ("Ga", "1", "3")];
                 root_fldr := None |} in
  oxi_range args
  = match oxi_range_occurrences
            [("--oxi_range", ["As"; "-3"; "5"]); ("--mpid", ["mp-149"]);
             ("--oxi_range", ["Ga"; "1"; "3"])] with
    | [] => None
    | triples => Some triples
    end
  ∧ oxi_range args ≠ Some [].
Proof.
  intros argv args.
  apply (oxi_range_options_appended Sample.world argv _
           func_generate_input_files args); reflexivity.
Defined.

(** X11.  [--mapi_key] and [--dir] are stored as typed, without the case
    folding of [--mpid]: the parsed value is the argument of the last
    occurrence, and [None] when there is none. *)
Theorem mapi_key_and_dir_stored_verbatim (w : World) (argv : list string)
    (command : string) (occs : list (string * list string)) (func : Func)
    (args : Namespace) :
  scan w argv = Return (command, occs) →
  parse_args w argv = Return (func, args) →
  (Forall (λ occ, occ.1 ≠ "--mapi_key") occs → mapi_key args = None)
  ∧ (∀ before v after,
       occs = before ++ ("--mapi_key", [v]) :: after →
       Forall (λ occ, occ.1 ≠ "--mapi_key") after →
       mapi_key args = Some v)
  ∧ (Forall (λ occ, occ.1 ≠ "--dir") occs → root_fldr args = None)
  ∧ (∀ before v after,
       command = "parse_vasp_output" →
       occs = before ++ ("--dir", [v]) :: after →
       Forall (λ occ, occ.1 ≠ "--dir") after →
       root_fldr args = Some v).
Proof.
  intros Hscan Hargs. unfold parse_args in Hargs. rewrite Hscan in Hargs.
  assert (∀ values x, (∃ v, values = [v] ∧ x = Some v) →
            ∀ v : string, values = [v] → x = Some v) as Hone.
  { intros values x (v' & -> & ->) v [= ->]. done. }
  repeat case_decide; [| |done].
  - destruct (apply_options _ _ _) as [ns|] eqn:Hrun; [|done].
    injection Hargs as _ ->.
    destruct (apply_options_set (parser_input_files w) mapi_key "--mapi_key"
                (λ values x, ∃ v, values = [v] ∧ x = Some v)
                (parser_input_files_mapi_key w) _ _ _ Hrun) as [Hnone Hlast].
    split_and!; [done| | |intros; congruence].
    + intros before v after Hoccs Hafter.
      by apply (Hone _ _ (Hlast _ _ _ Hoccs Hafter)).
    + intros _.
      apply (apply_options_keeps (parser_input_files w) root_fldr
               (parser_input_files_root_fldr w) _ _ _ Hrun).
  - destruct (apply_options _ _ _) as [ns|] eqn:Hrun; [|done].
    injection Hargs as _ ->.
    destruct (apply_options_set parser_vasp_output mapi_key "--mapi_key"
                (λ values x, ∃ v, values = [v] ∧ x = Some v)
                parser_vasp_output_mapi_key _ _ _ Hrun) as [Hnone Hlast].
    destruct (apply_options_set parser_vasp_output root_fldr "--dir"
                (λ values x, ∃ v, values = [v] ∧ x = Some v)
                parser_vasp_output_root_fldr _ _ _ Hrun) as [Hnone' Hlast'].
    split_and!; [done| |done|].
    + intros before v after Hoccs Hafter.
      by apply (Hone _ _ (Hlast _ _ _ Hoccs Hafter)).
    + intros before v after _ Hoccs Hafter.
      by apply (Hone _ _ (Hlast' _ _ _ Hoccs Hafter)).
Qed.

Lemma mapi_key_and_dir_stored_verbatim_witness :
  let args := {| mpid := Some "mp-149"; mapi_key := Some "KeY"; nmax := 128;
                 oxi_range := None; root_fldr := Some "Out" |} in
  mapi_key args = Some "KeY" ∧ root_fldr args = Some "Out".
Proof.
  intros args.
  destruct (mapi_key_and_dir_stored_verbatim Sample.world
              ["parse_vasp_output"; "--mapi_key"; "k"; "--dir"; "Out";
               "--mpid"; "MP-149"; "--mapi_key"; "KeY"]
              "parse_vasp_output"
              [("--mapi_key", ["k"]); ("--dir", ["Out"]);
               ("--mpid", ["MP-149"]); ("--mapi_key", ["KeY"])]
              func_parse_vasp_output args eq_refl eq_refl)
    as (_ & Hkey & _ & Hdir).
  split.
  - apply (Hkey [("--mapi_key", ["k"]); ("--dir", ["Out"]);
                 ("--mpid", ["MP-149"])] "KeY" []); [reflexivity|constructor].
  - apply (Hdir [("--mapi_key", ["k"])] "Out"
             [("--mpid", ["MP-149"]); ("--mapi_key", ["KeY"])]);
      [reflexivity..|by repeat constructor].
Defined.

(** X12.  A command line that parses prints the banner, and does nothing
    else, exactly when it has no [--mpid] or the argument of its last
    [--mpid] is the empty string; lowering the case does not change which. *)
Theorem banner_iff_no_identifier (w : World) (argv : list string)
    (command : string) (occs : list (string * list string)) (func : Func)
    (args : Namespace) :
  scan w argv = Return (command, occs) →
  parse_args w argv = Return (func, args) →
  run (main w argv) = ([E_print banner], Return tt)
  ↔ Forall (λ occ, occ.1 ≠ "--mpid") occs
    ∨ ∃ before after,
        occs = before ++ ("--mpid", [""]) :: after
        ∧ Forall (λ occ, occ.1 ≠ "--mpid") after.
Proof.
  intros Hscan Hargs.
  rewrite (main_dispatch _ _ _ _ Hargs), handler_banner.
  unfold parse_args in Hargs. rewrite Hscan in Hargs.
  assert (∃ action defaults,
            apply_options action occs defaults = Return args
            ∧ mpid defaults = None
            ∧ ∀ ns occ ns', action ns occ = Return ns' →
                (occ.1 ≠ "--mpid" → mpid ns' = mpid ns)
                ∧ (occ.1 = "--mpid" →
                   ∃ v, occ.2 = [v] ∧ mpid ns' = Some (str_lower v)))
    as (action & defaults & Hrun & Hdefault & Haction).
  { repeat case_decide; [| |done].
    - exists (parser_input_files w), parser_input_files_defaults.
      destruct (apply_options _ _ _) as [ns|]; [|done].
      injection Hargs as _ ->.
      split_and!; [done..|intros ???; apply parser_input_files_mpid].
    - exists parser_vasp_output, parser_vasp_output_defaults.
      destruct (apply_options _ _ _) as [ns|]; [|done].
      injection Hargs as _ ->.
      split_and!; [done..|intros ???; apply parser_vasp_output_mpid]. }
  destruct (apply_options_set action mpid "--mpid"
              (λ values m, ∃ v, values = [v] ∧ m = Some (str_lower v))
              Haction _ _ _ Hrun) as [Hnone Hlast].
  destruct (apply_options_last action mpid "--mpid"
              (λ values m, ∃ v, values = [v] ∧ m = Some (str_lower v))
              Haction _ _ _ Hrun)
    as [[Hall _]|(before & values & after & -> & Hafter & v & -> & Hv)].
  - split; [by left|]. intros _. by rewrite (Hnone Hall), Hdefault.
  - rewrite Hv. split.
    + intros Hfalse. right. exists before, after. split; [|done].
      destruct v; [done|discriminate Hfalse].
    + intros [Hall|(before' & after' & Hoccs & Hafter')].
      * apply Forall_app in Hall as [_ Hall].
        apply Forall_cons in Hall as [Hall _]. done.
      * destruct (Hlast _ _ _ Hoccs Hafter') as (v' & Hv'eq & Hv').
        injection Hv'eq as <-.
        assert (str_lower v = str_lower "") as Hempty by congruence.
        by rewrite Hempty.
Qed.

Lemma banner_iff_no_identifier_witness :
  let argv := ["parse_vasp_output"; "--mpid"; "mp-149"; "--mpid"; ""] in
  run (main Sample.world argv) = ([E_print banner], Return tt)
  ↔ Forall (λ occ, occ.1 ≠ "--mpid")
      [("--mpid", ["mp-149"]); ("--mpid", [""])]
    ∨ ∃ before after,
        [("--mpid", ["mp-149"]); ("--mpid", [""])]
        = before ++ ("--mpid", [""]) :: after
        ∧ Forall (λ occ, occ.1 ≠ "--mpid") after.
Proof.
  intros argv.
  apply (banner_iff_no_identifier Sample.world argv "parse_vasp_output" _
           func_parse_vasp_output
           {| mpid := Some ""; mapi_key := None; nmax := 128;
              oxi_range := None; root_fldr := None |});
    reflexivity.
Defined.

(** What each handler has no call of, and the only thing either prints. *)
Lemma handler_calls (w : World) (func : Func) (args : Namespace) :
  let tr := trace_of (match func with
                      | func_generate_input_files => generate_input_files w args
                      | func_parse_vasp_output => parse_vasp_output w args
                      end) in
  (∀ ev, ev ∈ tr →
     match func with
     | func_generate_input_files => post_processes ev = false
     | func_parse_vasp_output => generates_input ev = false
     end)
  ∧ (∀ s, E_print s ∈ tr → tr = [E_print banner]).
Proof.
  intros tr. subst tr. destruct func.
  - script_name (generate_input_files w args) tr out.
    unfold run, generate_input_files.
    destruct (mpid args) as [[|c id]|].
    1,3: intros [= <- <-]; split; intros; trace_cases; done.
    rewrite fetch_prim_struct_eq.
    generalize (MPRester_argument (mapi_key args)); intros key.
    destruct (oxi_range args) as [[|t l]|]; script_run.
    all: split; intros; trace_cases; done.
  - script_name (parse_vasp_output w args) tr out.
    unfold run, parse_vasp_output.
    destruct (mpid args) as [[|c id]|].
    1,3: intros [= <- <-]; split; intros; trace_cases; done.
    rewrite fetch_prim_struct_eq.
    generalize (MPRester_argument (mapi_key args)); intros key.
    script_run.
    all: split; intros; trace_cases; done.
Qed.

(** X14.  The sub-command decides the handler: a [parse_vasp_output] command
    line never analyses a structure, enumerates defects or writes an input
    file, a [generate_input_files] command line never post-processes, and
    the only text the script itself prints is the banner, in a run that
    does nothing else. *)
Theorem subcommands_do_not_mix (w : World) (argv : list string)
    (command : string) (occs : list (string * list string)) :
  scan w argv = Return (command, occs) →
  let tr := trace_of (main w argv) in
  (command = "parse_vasp_output" → ∀ ev, ev ∈ tr → generates_input ev = false)
  ∧ (command = "generate_input_files" →
     ∀ ev, ev ∈ tr → post_processes ev = false)
  ∧ (∀ s, E_print s ∈ tr → tr = [E_print banner]).
Proof.
  intros Hscan tr. subst tr. unfold trace_of.
  destruct (parse_args w argv) as [[func args]|e] eqn:Hargs.
  2: { rewrite (main_parser_exit _ _ _ Hargs). cbn [fst].
       split_and!; intros; trace_cases. }
  rewrite (main_dispatch _ _ _ _ Hargs).
  destruct (handler_calls w func args) as [Hnever Hprint].
  unfold parse_args in Hargs. rewrite Hscan in Hargs.
  split_and!; [| |done].
  - intros ->. rewrite decide_False, decide_True in Hargs by done.
    destruct (apply_options _ _ _); [|done].
    injection Hargs as <- _. done.
  - intros ->. rewrite decide_True in Hargs by done.
    destruct (apply_options _ _ _); [|done].
    injection Hargs as <- _. done.
Qed.

Lemma subcommands_do_not_mix_witness :
  generates_input (E_PostProcess None "mp-149" None (Return (Ref 4))) = false.
Proof.
  apply (subcommands_do_not_mix Sample.world
           ["parse_vasp_output"; "--mpid"; "mp-149"] "parse_vasp_output"
           [("--mpid", ["mp-149"])] eq_refl).
  - reflexivity.
  - trace_compute. trace_elem.
Defined.

(** * The script as a whole *)

(** ** What the command line accepts *)

Section Accepted_command_line.

Variable w : World.

Lemma parser_input_files_accepts (ns : Namespace)
    (occ : string * list string) :
  input_files_option w occ → ∃ ns', parser_input_files w ns occ = Return ns'.
Proof.
  intros [(v & ->)|[(v & ->)|[(v & n & -> & Hint)|(el & low & high & ->)]]];
    unfold parser_input_files; repeat case_decide; try done.
  - by eexists.
  - by eexists.
  - rewrite Hint. by eexists.
  - by eexists.
Qed.

Lemma apply_options_accepts (occs : list (string * list string))
    (ns : Namespace) :
  Forall (input_files_option w) occs →
  ∃ ns', apply_options (parser_input_files w) occs ns = Return ns'.
Proof.
  intros Hall. revert ns.
  induction Hall as [|occ occs Hocc _ IH]; intros ns; [by eexists|].
  cbn [apply_options].
  destruct (parser_input_files_accepts ns occ Hocc) as [ns1 ->].
  apply IH.
Qed.

(** On a [generate_input_files] command line the handler is
    [generate_input_files], and the arguments are the defaults with the
    options applied. *)
Lemma parse_args_input_files (argv : list string)
    (occs : list (string * list string)) (r : Result (Func * Namespace)) :
  scan w argv = Return ("generate_input_files", occs) →
  parse_args w argv = r →
  match apply_options (parser_input_files w) occs parser_input_files_defaults
  with
  | Return args => r = Return (func_generate_input_files, args)
  | Raise e => r = Raise e
  end.
Proof.
  intros Hscan <-. unfold parse_args. rewrite Hscan, decide_True by done.
  by destruct (apply_options _ _ _).
Qed.

End Accepted_command_line.

(** ** C5: the default of [--nmax] and [cellmax] *)

(** C5.  A [generate_input_files] command line made of well-formed options
    parses.  Without [--nmax] the parsed [nmax] is 128 and every call of the
    enumerator in the run of [main] has [cellmax] 128; with [--nmax] it is
    the integer of the last one, in the parsed arguments and in every call
    of the enumerator.  A run of [main] that returns has printed the banner
    and nothing else, or has called the enumerator.  In the handler,
    whatever [nmax] holds is the [cellmax] of every call of the enumerator,
    with a dictionary when [--oxi_range] was given and without one when it
    was not, and a handler that returns has called the enumerator. *)
Theorem nmax_default_and_cellmax (w : World) :
  (∀ argv occs,
     scan w argv = Return ("generate_input_files", occs) →
     let tr := trace_of (main w argv) in
     (Forall (input_files_option w) occs →
      ∃ args, parse_args w argv = Return (func_generate_input_files, args))
     ∧ (∀ func args, parse_args w argv = Return (func, args) →
          (Forall (λ occ, occ.1 ≠ "--nmax") occs → nmax args = 128)
          ∧ (∀ before v after,
               occs = before ++ ("--nmax", [v]) :: after →
               Forall (λ occ, occ.1 ≠ "--nmax") after →
               int w v = Return (nmax args)))
     ∧ (Forall (λ occ, occ.1 ≠ "--nmax") occs →
        (∀ s oxi n r, E_ChargedDefectsStructures s oxi n r ∈ tr → n = 128)
        ∧ (outcome_of (main w argv) = Return tt →
           tr = [E_print banner]
           ∨ ∃ s oxi r, E_ChargedDefectsStructures s oxi 128 r ∈ tr))
     ∧ (∀ before v after,
          occs = before ++ ("--nmax", [v]) :: after →
          Forall (λ occ, occ.1 ≠ "--nmax") after →
          (∀ s oxi n r, E_ChargedDefectsStructures s oxi n r ∈ tr →
             int w v = Return n)
          ∧ (outcome_of (main w argv) = Return tt →
             tr = [E_print banner]
             ∨ ∃ s oxi n r, E_ChargedDefectsStructures s oxi n r ∈ tr
                            ∧ int w v = Return n)))
  ∧ (∀ args s oxi n r,
       E_ChargedDefectsStructures s oxi n r
         ∈ trace_of (generate_input_files w args) →
       n = nmax args
       ∧ (is_Some oxi ↔ truthy_list (oxi_range args) = true))
  ∧ (∀ args,
       truthy_str (mpid args) = true →
       outcome_of (generate_input_files w args) = Return tt →
       ∃ s oxi r,
         E_ChargedDefectsStructures s oxi (nmax args) r
           ∈ trace_of (generate_input_files w args)).
Proof.
  split_and!.
  2: { intros args. apply (nmax_parsed_and_forwarded w args). }
  2: { intros args. apply (nmax_parsed_and_forwarded w args). }
  intros argv occs Hscan tr. subst tr.
  assert (∀ func args, parse_args w argv = Return (func, args) →
            (Forall (λ occ, occ.1 ≠ "--nmax") occs → nmax args = 128)
            ∧ (∀ before v after,
                 occs = before ++ ("--nmax", [v]) :: after →
                 Forall (λ occ, occ.1 ≠ "--nmax") after →
                 int w v = Return (nmax args))) as Hparsed.
  { intros func args Hargs.
    by apply (proj1 (nmax_parsed_and_forwarded w args) argv occs func). }
  (* what the run of [main] is, given what the parsed [nmax] is *)
  assert (∀ P : Z → Prop,
            (∀ func args, parse_args w argv = Return (func, args) →
               P (nmax args)) →
            (∀ s oxi n r,
               E_ChargedDefectsStructures s oxi n r ∈ trace_of (main w argv) →
               P n)
            ∧ (outcome_of (main w argv) = Return tt →
               trace_of (main w argv) = [E_print banner]
               ∨ ∃ s oxi n r,
                   E_ChargedDefectsStructures s oxi n r
                     ∈ trace_of (main w argv)
                   ∧ P n)) as Hmain.
  { intros P HP. unfold trace_of, outcome_of.
    pose proof (parse_args_input_files w argv occs _ Hscan eq_refl) as Hargs.
    destruct (apply_options _ _ _) as [args|e].
    - rewrite (main_dispatch _ _ _ _ Hargs).
      specialize (HP _ _ Hargs).
      destruct (nmax_parsed_and_forwarded w args) as (_ & Hforward & Hcalled).
      split.
      + intros s oxi n r Hin.
        by destruct (Hforward s oxi n r Hin) as [-> _].
      + intros Hout.
        destruct (truthy_str (mpid args)) eqn:Hmpid.
        * right. destruct (Hcalled eq_refl Hout) as (s & oxi & r & Hin).
          by exists s, oxi, (nmax args), r.
        * left.
          by rewrite (proj2 (handler_banner w func_generate_input_files args)
                        Hmpid).
    - rewrite (main_parser_exit _ _ _ Hargs). cbn [fst snd].
      split; [intros s oxi n r Hin; trace_cases|done]. }
  split_and!.
  - intros Hall.
    pose proof (parse_args_input_files w argv occs _ Hscan eq_refl) as Hargs.
    destruct (apply_options_accepts w occs parser_input_files_defaults Hall)
      as [args Hrun].
    rewrite Hrun in Hargs. by exists args.
  - done.
  - intros Hnone.
    destruct (Hmain (λ n, n = 128)) as [Hevery Hreturns].
    { intros func args Hargs. by apply (Hparsed func args Hargs). }
    split; [done|]. intros Hout.
    destruct (Hreturns Hout) as [?|(s & oxi & n & r & Hin & ->)];
      [by left|right; by exists s, oxi, r].
  - intros before v after Hoccs Hafter.
    apply (Hmain (λ n, int w v = Return n)).
    intros func args Hargs.
    by apply (proj2 (Hparsed func args Hargs) before v after).
Qed.

Lemma nmax_default_and_cellmax_witness :
  let argv := ["generate_input_files"; "--mpid"; "MP-149"; "--oxi_range";
               "As"; "-3"; "5"] in
  (∃ args,
     parse_args Sample.world argv = Return (func_generate_input_files, args))
  ∧ ∃ s oxi r,
      E_ChargedDefectsStructures s oxi 128 r
        ∈ trace_of (main Sample.world argv).
Proof.
  intros argv.
  destruct (nmax_default_and_cellmax Sample.world) as [Hline _].
  destruct (Hline argv
              [("--mpid", ["MP-149"]); ("--oxi_range", ["As"; "-3"; "5"])]
              eq_refl) as (Hparses & _ & Hdefault & _).
  split.
  - apply Hparses.
    apply Forall_cons_2; [left; by exists "MP-149"|].
    apply Forall_cons_2; [do 3 right; by exists "As", "-3", "5"|].
    apply Forall_nil_2.
  - destruct Hdefault as [_ [Hbanner|Hcalled]];
      [by repeat constructor|reflexivity| |exact Hcalled].
    exfalso. revert Hbanner. trace_compute. discriminate.
Defined.

(** ** C7: failures, in the handlers and in the script *)

(** The event of a known trace that raised a given exception. *)
Ltac raised_event :=
  lazymatch goal with
  | |- ∃ ev, ev ∈ ?tr ∧ raised_by ev = Some ?e =>
      let rec go l :=
        lazymatch l with
        | ?x :: ?l' =>
            first [ exists x; split; [trace_elem|reflexivity] | go l' ]
        end in
      go tr
  end.

(** An exception that ends a handler was raised by a library call of the
    run or by [int] on a bound of an [--oxi_range] triple. *)
Lemma handler_exception_source (w : World) (func : Func) (args : Namespace)
    (e : Exn) :
  let m := match func with
           | func_generate_input_files => generate_input_files w args
           | func_parse_vasp_output => parse_vasp_output w args
           end in
  outcome_of m = Raise e →
  (∃ ev, ev ∈ trace_of m ∧ raised_by ev = Some e)
  ∨ (func = func_generate_input_files
     ∧ ∃ triples el low high,
         oxi_range args = Some triples
         ∧ (el, low, high) ∈ triples
         ∧ (int w low = Raise e ∨ int w high = Raise e)).
Proof.
  intros m. subst m. destruct func.
  - script_name (generate_input_files w args) tr out.
    unfold run, generate_input_files.
    destruct (mpid args) as [[|c id]|].
    1,3: intros [= <- <-]; done.
    rewrite fetch_prim_struct_eq.
    generalize (MPRester_argument (mapi_key args)); intros key.
    destruct (oxi_range args) as [triples|] eqn:Hoxi.
    + destruct triples as [|t l]; script_run; intros [= <-];
        try (left; raised_event).
      right. split; [done|].
      match goal with
      | H : oxi_dict_from w _ ∅ = Raise _ |- _ =>
          destruct (oxi_dict_from_raises w _ _ _ H)
            as (el & low & high & Hin & Hint)
      end.
      by exists (t :: l), el, low, high.
    + script_run; intros [= <-]; left; raised_event.
  - script_name (parse_vasp_output w args) tr out.
    unfold run, parse_vasp_output.
    destruct (mpid args) as [[|c id]|].
    1,3: intros [= <- <-]; done.
    rewrite fetch_prim_struct_eq.
    generalize (MPRester_argument (mapi_key args)); intros key.
    script_run; intros [= <-]; left; raised_event.
Qed.

(** C7.  Nothing is caught.  In a handler: when a call into a library
    raises, the handler ends with that exception, or, when the call was the
    fetch inside the [with] block and [__exit__] raised in turn, with the
    exception of [__exit__]; when a bound of an [--oxi_range] triple does
    not convert, the handler does not return, and it ends with the exception
    of [int] when no library call raised before.  In the script: [main]
    ends with the very exception the handler ends with, so the same holds
    of a run of [main]; an exception that ends [main] comes from the
    command line, from a library call of the run or from [int] on a bound;
    and after a library exception other than [SystemExit] the exit status
    is 1, unless [__exit__] raised in turn and its exception decides. *)
Theorem failures_propagate (w : World) (args : Namespace) :
  let propagates (m : M unit) :=
    ∀ ev e, ev ∈ trace_of m → raised_by ev = Some e →
      outcome_of m = Raise e
      ∨ ∃ mgr e', E_exit mgr (Some e) (Raise e') ∈ trace_of m
                  ∧ outcome_of m = Raise e' in
  propagates (generate_input_files w args)
  ∧ propagates (parse_vasp_output w args)
  ∧ (∀ triples el low high e,
       truthy_str (mpid args) = true →
       oxi_range args = Some triples →
       (el, low, high) ∈ triples →
       int w low = Raise e ∨ int w high = Raise e →
       ∃ e', outcome_of (generate_input_files w args) = Raise e')
  ∧ (∀ triples e,
       truthy_str (mpid args) = true →
       oxi_range args = Some triples →
       run (build_oxi_range_dict w triples) = ([], Raise e) →
       (∀ ev, ev ∈ trace_of (generate_input_files w args) →
          raised_by ev = None) →
       outcome_of (generate_input_files w args) = Raise e
       ∧ ∃ el low high, (el, low, high) ∈ triples
                        ∧ (int w low = Raise e ∨ int w high = Raise e))
  ∧ (∀ argv func,
       parse_args w argv = Return (func, args) →
       let handler := match func with
                      | func_generate_input_files => generate_input_files w args
                      | func_parse_vasp_output => parse_vasp_output w args
                      end in
       run (main w argv) = run handler
       ∧ propagates (main w argv)
       ∧ (∀ ev class message,
            ev ∈ trace_of (main w argv) →
            raised_by ev = Some (Exception class message) →
            exit_status (outcome_of (main w argv)) = 1
            ∨ ∃ mgr e',
                E_exit mgr (Some (Exception class message)) (Raise e')
                  ∈ trace_of (main w argv)
                ∧ outcome_of (main w argv) = Raise e')
       ∧ (∀ e, outcome_of (main w argv) = Raise e →
            (∃ ev, ev ∈ trace_of (main w argv) ∧ raised_by ev = Some e)
            ∨ ∃ triples el low high,
                func = func_generate_input_files
                ∧ oxi_range args = Some triples
                ∧ (el, low, high) ∈ triples
                ∧ (int w low = Raise e ∨ int w high = Raise e))
       ∧ (∀ triples el low high e,
            func = func_generate_input_files →
            truthy_str (mpid args) = true →
            oxi_range args = Some triples →
            (el, low, high) ∈ triples →
            int w low = Raise e ∨ int w high = Raise e →
            ∃ e', outcome_of (main w argv) = Raise e'
                  ∧ ((∃ ev, ev ∈ trace_of (main w argv)
                            ∧ raised_by ev = Some e')
                     ∨ ∃ el' low' high',
                         (el', low', high') ∈ triples
                         ∧ (int w low' = Raise e' ∨ int w high' = Raise e')))
       ∧ (∀ triples e,
            func = func_generate_input_files →
            truthy_str (mpid args) = true →
            oxi_range args = Some triples →
            run (build_oxi_range_dict w triples) = ([], Raise e) →
            (∀ ev, ev ∈ trace_of (main w argv) → raised_by ev = None) →
            outcome_of (main w argv) = Raise e))
  ∧ (∀ argv e, parse_args w argv = Raise e →
       run (main w argv) = ([], Raise e)).
Proof.
  intros propagates.
  destruct (handlers_propagate w args)
    as (Hgen & Hparse & Hbound & Hloop & _ & _).
  split_and!; [done..| |apply main_parser_exit].
  intros argv func Hargs handler.
  assert (run (main w argv) = run handler) as Hmain
    by apply (main_dispatch _ _ _ _ Hargs).
  assert (propagates (main w argv)) as Hprop.
  { subst propagates. cbv beta. unfold trace_of, outcome_of.
    rewrite Hmain. subst handler. by destruct func. }
  split_and!; [done..| | | |].
  - intros ev class message Hin Hraised.
    destruct (Hprop ev _ Hin Hraised) as [Hout|(mgr & e' & Hexit & Hout)].
    + left. by rewrite Hout.
    + right. by exists mgr, e'.
  - intros e. unfold trace_of, outcome_of. rewrite Hmain. subst handler.
    intros Hout.
    destruct (handler_exception_source w func args e Hout)
      as [?|(-> & triples & el & low & high & ? & ? & ?)]; [by left|].
    right. by exists triples, el, low, high.
  - intros triples el low high e -> Hmpid Hoxi Hin Hint.
    destruct (Hbound triples el low high e Hmpid Hoxi Hin Hint) as [e' Hout].
    exists e'. unfold trace_of, outcome_of. rewrite Hmain. subst handler.
    split; [done|].
    destruct (handler_exception_source w func_generate_input_files args e'
                Hout)
      as [?|(_ & triples' & el' & low' & high' & Hoxi' & ? & ?)]; [by left|].
    right. exists el', low', high'. split; [congruence|done].
  - intros triples e -> Hmpid Hoxi Hraises.
    unfold trace_of, outcome_of. rewrite Hmain. subst handler.
    intros Hquiet. by apply (Hloop triples e).
Qed.

Lemma failures_propagate_witness :
  let down := Exception "MPRestError" "REST query failed" in
  let rejected := Exception "ValueError"
                    "invalid literal for int() with base 10: 'x1'" in
  let argv := ["parse_vasp_output"; "--mpid"; "mp-149"] in
  let argv' := ["generate_input_files"; "--mpid"; "mp-149";
                "--oxi_range"; "As"; "-3"; "x1"] in
  (exit_status (outcome_of (main Sample.offline argv)) = 1
   ∨ ∃ mgr e',
       E_exit mgr (Some down) (Raise e') ∈ trace_of (main Sample.offline argv)
       ∧ outcome_of (main Sample.offline argv) = Raise e')
  ∧ outcome_of (main Sample.world argv') = Raise rejected.
Proof.
  intros down rejected argv argv'. split.
  - destruct (failures_propagate Sample.offline
                {| mpid := Some "mp-149"; mapi_key := None; nmax := 128;
                   oxi_range := None; root_fldr := None |})
      as (_ & _ & _ & _ & Hscript & _).
    destruct (Hscript argv func_parse_vasp_output eq_refl)
      as (_ & _ & Hstatus & _).
    apply (Hstatus (E_get_structure_by_material_id (Ref 0%nat) "mp-149"
                      (Raise down)) "MPRestError" "REST query failed");
      [|reflexivity].
    trace_compute. trace_elem.
  - destruct (failures_propagate Sample.world
                {| mpid := Some "mp-149"; mapi_key := None; nmax := 128;
                   oxi_range := Some [("As", "-3", "x1")];
                   root_fldr := None |})
      as (_ & _ & _ & _ & Hscript & _).
    destruct (Hscript argv' func_generate_input_files eq_refl)
      as (_ & _ & _ & _ & _ & Hloop).
    apply (Hloop [("As", "-3", "x1")] rejected eq_refl eq_refl eq_refl).
    + vm_compute. reflexivity.
    + trace_compute. intros ev Hin. trace_cases; reflexivity.
Defined.

(** ** When the bounds are read *)

(** The first library call of either handler, with an identifier given,
    builds the client. *)
Lemma handlers_start_with_MPRester (w : World) (func : Func)
    (args : Namespace) :
  truthy_str (mpid args) = true →
  ∃ key r rest,
    trace_of (match func with
              | func_generate_input_files => generate_input_files w args
              | func_parse_vasp_output => parse_vasp_output w args
              end) = E_MPRester key r :: rest.
Proof.
  intros (c & id & Hid)%truthy_str_Some. destruct func.
  - script_name (generate_input_files w args) tr out.
    unfold run, generate_input_files. rewrite Hid, fetch_prim_struct_eq.
    generalize (MPRester_argument (mapi_key args)); intros key.
    destruct (oxi_range args) as [[|t l]|]; script_run; by eexists _, _, _.
  - script_name (parse_vasp_output w args) tr out.
    unfold run, parse_vasp_output. rewrite Hid, fetch_prim_struct_eq.
    generalize (MPRester_argument (mapi_key args)); intros key.
    script_run; by eexists _, _, _.
Qed.

(** The first seven calls of [generate_input_files] are made whatever
    [oxi_range] holds. *)
Lemma first_seven_calls (w : World) (args : Namespace)
    (oxi oxi' : option (list OxiTriple)) :
  take 7 (trace_of (generate_input_files w (set_oxi_range args oxi)))
  = take 7 (trace_of (generate_input_files w (set_oxi_range args oxi'))).
Proof.
  unfold trace_of, run, generate_input_files. cbn [mpid mapi_key set_oxi_range
    oxi_range nmax].
  destruct (mpid args) as [[|c id]|]; [done| |done].
  rewrite fetch_prim_struct_eq.
  generalize (MPRester_argument (mapi_key args)); intros key.
  destruct oxi as [[|t l]|], oxi' as [[|t' l']|];
    script_unfold; repeat script_step;
    repeat match goal with
      | |- context [make_vasp_defect_files ?w ?tr ?d ?f] =>
          destruct (make_vasp_defect_files w tr d f)
      end;
    reflexivity.
Qed.

(** X5.  The bounds of [--oxi_range] are read by [int] after the dielectric
    files are written and not before: up to and including that write, the
    calls of a run are the same whatever [--oxi_range] holds; and when the
    loop raises in a run whose library calls all returned, the run is
    exactly the seven calls up to that write, the handler ends with the
    exception of the loop, and the enumerator is never called. *)
Theorem bound_rejected_after_dielectric_files (w : World) (args : Namespace)
    (triples : list OxiTriple) (e : Exn) :
  truthy_str (mpid args) = true →
  oxi_range args = Some triples →
  run (build_oxi_range_dict w triples) = ([], Raise e) →
  let tr := trace_of (generate_input_files w args) in
  (∀ oxi', take 7 tr
           = take 7 (trace_of (generate_input_files w
                                 (set_oxi_range args oxi'))))
  ∧ (∀ s oxi n r, E_ChargedDefectsStructures s oxi n r ∉ tr)
  ∧ ((∀ ev, ev ∈ tr → raised_by ev = None) →
     outcome_of (generate_input_files w args) = Raise e
     ∧ ∃ key id mgr mp prim sga conv,
         mpid args = Some id
         ∧ tr = [E_MPRester key (Return mgr);
                 E_enter mgr (Return mp);
                 E_get_structure_by_material_id mp id (Return prim);
                 E_exit mgr None (Return tt);
                 E_SpacegroupAnalyzer prim (Return sga);
                 E_get_conventional_standard_structure sga (Return conv);
                 E_make_vasp_dielectric_files prim (Return tt)])
  ∧ (∀ prim, E_make_vasp_dielectric_files prim (Return tt) ∈ tr →
       outcome_of (generate_input_files w args) = Raise e
       ∧ length tr = 7%nat).
Proof.
  intros (c & id & Hid)%truthy_str_Some Hoxi.
  unfold run at 1. rewrite build_oxi_range_dict_pure.
  intros [= Hloop]. split.
  { intros oxi'.
    replace args with (set_oxi_range args (oxi_range args)) at 1
      by by destruct args.
    apply first_seven_calls. }
  revert Hloop.
  script_name (generate_input_files w args) tr out.
  unfold run, generate_input_files. rewrite Hid, Hoxi, fetch_prim_struct_eq.
  generalize (MPRester_argument (mapi_key args)); intros key.
  destruct triples as [|t l]; [done|].
  generalize (t :: l). intros triples.
  script_run; intros Hloop; simplify_eq.
  all: split_and!;
    [intros s oxi n r Hin; trace_cases
    |intros Hquiet
    |intros prim Hin; trace_cases; done].
  all: try (apply Forall_forall in Hquiet;
            repeat match goal with
              | H : Forall _ (_ :: _) |- _ => apply Forall_cons in H as [? H]
              end; done).
  split; [done|]. by eexists _, _, _, _, _, _, _.
Qed.

Lemma bound_rejected_after_dielectric_files_witness :
  let args := {| mpid := Some "mp-149"; mapi_key := None; nmax := 128;
                 oxi_range := Some [("As", "-3", "x1")]; root_fldr := None |} in
  let e := Exception "ValueError"
             "invalid literal for int() with base 10: 'x1'" in
  outcome_of (generate_input_files Sample.world args) = Raise e
  ∧ ∃ key id mgr mp prim sga conv,
      mpid args = Some id
      ∧ trace_of (generate_input_files Sample.world args)
        = [E_MPRester key (Return mgr);
           E_enter mgr (Return mp);
           E_get_structure_by_material_id mp id (Return prim);
           E_exit mgr None (Return tt);
           E_SpacegroupAnalyzer prim (Return sga);
           E_get_conventional_standard_structure sga (Return conv);
           E_make_vasp_dielectric_files prim (Return tt)].
Proof.
  intros args e.
  destruct (bound_rejected_after_dielectric_files Sample.world args
              [("As", "-3", "x1")] e eq_refl eq_refl)
    as (_ & _ & Hquiet & _).
  - vm_compute. reflexivity.
  - apply Hquiet. trace_compute. intros ev Hin. trace_cases; reflexivity.
Defined.

(** ** When [--nmax] is read *)

Section Rejected_nmax.

Variable w : World.

(** What a rejected occurrence exits with: status 2, and status 0 for the
    help option only. *)
Lemma parser_input_files_rejects (ns : Namespace)
    (occ : string * list string) (e : Exn) :
  parser_input_files w ns occ = Raise e →
  e = SystemExit 2 ∨ (e = SystemExit 0 ∧ help_option occ).
Proof.
  destruct occ as [opt values].
  unfold parser_input_files, parser_error, help_option.
  repeat case_decide; intros;
    repeat match goal with
      | H : context [match ?x with _ => _ end] |- _ => destruct x eqn:?
      end;
    simplify_eq/=; auto.
Qed.

Lemma apply_options_rejects_nmax (before after : list (string * list string))
    (v : string) (e : Exn) (ns : Namespace) :
  int w v = Raise e →
  ∃ code,
    apply_options (parser_input_files w)
      (before ++ ("--nmax", [v]) :: after) ns
    = Raise (SystemExit code)
    ∧ (code = 2 ∨ (code = 0 ∧ Exists help_option before))
    ∧ (Forall (input_files_option w) before → code = 2).
Proof.
  intros Hint. revert ns.
  induction before as [|occ before IH]; intros ns.
  - exists 2. split_and!; [|by left|done].
    cbn [app apply_options]. unfold parser_input_files.
    repeat case_decide; try done. by rewrite Hint.
  - cbn [app apply_options].
    destruct (parser_input_files w ns occ) as [ns1|e0] eqn:Hocc.
    + destruct (IH ns1) as (code & -> & Hcode & Hexact).
      exists code. split_and!; [done| |].
      * destruct Hcode as [?|[? ?]]; [by left|right].
        split; [done|by apply Exists_cons_tl].
      * intros [_ Hbefore]%Forall_cons. by apply Hexact.
    + destruct (parser_input_files_rejects _ _ _ Hocc) as [->|[-> Hhelp]].
      * exists 2. split_and!; [done|by left|done].
      * exists 0. split_and!; [done| |].
        -- right. split; [done|by apply Exists_cons_hd].
        -- intros [Haccepted _]%Forall_cons.
           destruct (parser_input_files_accepts w ns occ Haccepted) as [? ?].
           congruence.
Qed.

End Rejected_nmax.

(** X13.  [--nmax] has [type=int]: an argument [int] rejects stops the
    script at the command line, before any library call, with exit status
    2, or with status 0 when a help option came before it; the status is 2
    when the options before it are well formed.  The bounds of
    [--oxi_range] have [type=str]: a command line of well-formed options
    parses whatever its bounds are, and with an identifier the script goes
    on to build the database client. *)
Theorem nmax_checked_on_command_line (w : World) :
  (∀ argv before after v e,
     scan w argv
       = Return ("generate_input_files", before ++ ("--nmax", [v]) :: after) →
     int w v = Raise e →
     ∃ code,
       run (main w argv) = ([], Raise (SystemExit code))
       ∧ (code = 2 ∨ (code = 0 ∧ Exists help_option before))
       ∧ (Forall (input_files_option w) before → code = 2))
  ∧ (∀ argv el low high before after,
       scan w argv
         = Return ("generate_input_files",
                   before ++ ("--oxi_range", [el; low; high]) :: after) →
       Forall (input_files_option w) before →
       Forall (input_files_option w) after →
       ∃ args triples,
         parse_args w argv = Return (func_generate_input_files, args)
         ∧ oxi_range args = Some triples
         ∧ (el, low, high) ∈ triples
         ∧ (truthy_str (mpid args) = true →
            ∃ key r rest, trace_of (main w argv) = E_MPRester key r :: rest)).
Proof.
  split.
  - intros argv before after v e Hscan Hint.
    destruct (apply_options_rejects_nmax w before after v e
                parser_input_files_defaults Hint)
      as (code & Hrun & Hcode & Hexact).
    exists code. split_and!; [|done..].
    apply main_parser_exit.
    pose proof (parse_args_input_files w argv _ _ Hscan eq_refl) as Hargs.
    by rewrite Hrun in Hargs.
  - intros argv el low high before after Hscan Hbefore Hafter.
    assert (Forall (input_files_option w)
              (before ++ ("--oxi_range", [el; low; high]) :: after)) as Hall.
    { apply Forall_app. split; [done|].
      apply Forall_cons. split; [|done].
      do 3 right. by exists el, low, high. }
    destruct (apply_options_accepts w _ parser_input_files_defaults Hall)
      as [args Hrun].
    pose proof (parse_args_input_files w argv _ _ Hscan eq_refl) as Hargs.
    rewrite Hrun in Hargs.
    pose proof (apply_options_oxi_range w _ _ _ Hrun) as Hoxi.
    assert (("--oxi_range", [el; low; high]) ∈
              before ++ ("--oxi_range", [el; low; high]) :: after) as Hin.
    { apply elem_of_app. right. apply list_elem_of_here. }
    assert ((el, low, high)
              ∈ oxi_range_occurrences
                  (before ++ ("--oxi_range", [el; low; high]) :: after))
      as Htriple.
    { unfold oxi_range_occurrences. apply list_elem_of_bind.
      exists ("--oxi_range", [el; low; high]). split; [|done].
      cbn. rewrite decide_True by done. apply list_elem_of_here. }
    destruct (oxi_range_occurrences _) as [|t triples] eqn:Hoccs;
      [by apply elem_of_nil in Htriple|].
    exists args, (t :: triples). split_and!; [done..|].
    intros Hmpid. unfold trace_of.
    rewrite (main_dispatch _ _ _ _ Hargs).
    apply (handlers_start_with_MPRester w func_generate_input_files args Hmpid).
Qed.

Lemma nmax_checked_on_command_line_witness :
  (∃ code,
     run (main Sample.world
            ["generate_input_files"; "--mpid"; "mp-149"; "--nmax"; "many"])
     = ([], Raise (SystemExit code))
     ∧ (code = 2
        ∨ (code = 0 ∧ Exists help_option [("--mpid", ["mp-149"])]))
     ∧ (Forall (input_files_option Sample.world) [("--mpid", ["mp-149"])] →
        code = 2))
  ∧ ∃ args triples,
      parse_args Sample.world
        ["generate_input_files"; "--mpid"; "mp-149";
         "--oxi_range"; "As"; "-3"; "x1"]
      = Return (func_generate_input_files, args)
      ∧ oxi_range args = Some triples
      ∧ ("As", "-3", "x1") ∈ triples
      ∧ (truthy_str (mpid args) = true →
         ∃ key r rest,
           trace_of (main Sample.world
                       ["generate_input_files"; "--mpid"; "mp-149";
                        "--oxi_range"; "As"; "-3"; "x1"])
           = E_MPRester key r :: rest).
Proof.
  destruct (nmax_checked_on_command_line Sample.world) as [Hnmax Hoxi].
  split.
  - apply (Hnmax _ [("--mpid", ["mp-149"])] [] "many"
             (Exception "ValueError"
                "invalid literal for int() with base 10: 'many'"));
      reflexivity.
  - apply (Hoxi _ "As" "-3" "x1" [("--mpid", ["mp-149"])] []).
    + reflexivity.
    + apply Forall_cons_2; [left; by exists "mp-149"|apply Forall_nil_2].
    + apply Forall_nil_2.
Defined.
